(** * Adaptive trivia quiz (script.js): shallow embedding and checked properties

    The development follows [src/script.js]:
    - [JsNumber]   : the JavaScript Number type (IEEE 754 binary64) and
                     [Math.round];
    - [Question], [Player], [Quiz] and the generator [quizFlowGenerator]
      as records over an explicit page state [World];
    - the comparator-driven [Array.prototype.sort] call of the generator,
      with [Math.random] read from an explicit stream of draws.

    Definitions come first, theorems afterwards. *)

From Stdlib Require Import ZArith List Bool String Lia Arith Permutation.
From Stdlib Require Import Floats.SpecFloat.
Import ListNotations.

Open Scope string_scope.
Open Scope list_scope.
Open Scope nat_scope.

(* ================================================================== *)
(** ** JavaScript numbers *)
(* ================================================================== *)

(** A JavaScript Number is an IEEE 754 binary64 value.  [spec_float] with
    precision 53 and maximal exponent 1024 is exactly that format; the
    operations below round to nearest, ties to even, as ECMAScript
    prescribes for [/], [*] and [-]. *)
Module JsNumber.

Local Open Scope Z_scope.

Definition number : Type := spec_float.

Definition prec : Z := 53.
Definition emax : Z := 1024.

(** An integer as a Number (exact below 2^53). *)
Definition of_Z (z : Z) : number := binary_normalize prec emax z 0 false.
Definition of_nat (n : nat) : number := of_Z (Z.of_nat n).

Definition div : number -> number -> number := SFdiv prec emax.
Definition mul : number -> number -> number := SFmul prec emax.
Definition sub : number -> number -> number := SFsub prec emax.

(** [x > y]; false as soon as one side is NaN. *)
Definition gt (x y : number) : bool := SFltb y x.
(** [x <= y]; false as soon as one side is NaN. *)
Definition le (x y : number) : bool := SFleb x y.

(** A decimal literal [p/q] (such as 0.7 = 7/10) denotes the double
    nearest to the rational, which is what the correctly rounded
    division of the two exact integers returns. *)
Definition lit (p q : Z) : number := div (of_Z p) (of_Z q).

Definition js_0_7 : number := S754_finite false 6305039478318694 (-53).
Definition js_0_4 : number := S754_finite false 7205759403792794 (-54).
Definition js_0_5 : number := S754_finite false 4503599627370496 (-53).

(** [Math.round x]: the integral Number closest to [x], the one towards
    +infinity when two are equally close; NaN, the infinities and the
    zeros are returned unchanged, and a result of zero keeps the sign
    of [x].  A finite [x = (+/-) m * 2^e] with [e >= 0] is already
    integral; otherwise the result is [floor (x + 1/2)], computed
    exactly on integers. *)
Definition Math_round (x : number) : number :=
  match x with
  | S754_finite s m e =>
      if 0 <=? e then x
      else
        let sm := if s then Z.neg m else Z.pos m in
        let d := 2 ^ (- e) in
        let z := (2 * sm + d) / (2 * d) in
        if z =? 0 then S754_zero s else of_Z z
  | _ => x
  end.

(** Structural equality test on Numbers (distinguishes the two zeros,
    used only to compare computed results). *)
Definition same (a b : number) : bool :=
  match a, b with
  | S754_zero s, S754_zero s' => Bool.eqb s s'
  | S754_infinity s, S754_infinity s' => Bool.eqb s s'
  | S754_nan, S754_nan => true
  | S754_finite s m e, S754_finite s' m' e' =>
      Bool.eqb s s' && Pos.eqb m m' && Z.eqb e e'
  | _, _ => false
  end.

End JsNumber.

Import JsNumber.

(* ================================================================== *)
(** ** calculateDificultyLevel *)
(* ================================================================== *)

(** [function calculateDificultyLevel(performanceScore)]. *)
Definition calculateDificultyLevel (performanceScore : number) : string :=
  if gt performanceScore js_0_7 then "hard"%string
  else if gt performanceScore js_0_4 then "medium"%string
  else "easy"%string.

(* ================================================================== *)
(** ** Question *)
(* ================================================================== *)

Record Question : Type := mkQuestion {
  questionText : string;
  answerChoices : list string;
  correctAns : string;
  difficultyLevel : string
}.

(** [Question.validateAnswer]: [userSelectedAnswer === this.correctAns]
    on two strings. *)
Definition validateAnswer (q : Question) (userSelectedAnswer : string) : bool :=
  String.eqb userSelectedAnswer (correctAns q).

(** Three questions used as concrete inputs below. *)
Definition capitalQ : Question :=
  {| questionText := "Capital of France?";
     answerChoices := ["Rome"; "Paris"; "Oslo"; "Bern"];
     correctAns := "Paris"; difficultyLevel := "easy" |}.

Definition primeQ : Question :=
  {| questionText := "Smallest prime above 90?";
     answerChoices := ["91"; "93"; "97"; "99"];
     correctAns := "97"; difficultyLevel := "hard" |}.

Definition planetQ : Question :=
  {| questionText := "Largest planet?";
     answerChoices := ["Mars"; "Venus"; "Saturn"; "Jupiter"];
     correctAns := "Jupiter"; difficultyLevel := "medium" |}.

(* ================================================================== *)
(** ** Player *)
(* ================================================================== *)

(** One element of [Player.allScores]. *)
Record ScoreRecord : Type := mkScoreRecord {
  score : nat;
  total : nat;
  percentage : number;
  timestamp : string
}.

Record Player : Type := mkPlayer {
  username : string;
  allScores : list ScoreRecord;
  recentScore : nat
}.

(** [new Player()] with the default user name. *)
Definition Player_new : Player :=
  {| username := "Player"; allScores := []; recentScore := 0 |}.

(** [(pointsEarned / totalPoints) * 100] rounded by [Math.round]; the
    two counters are integers, converted without loss. *)
Definition percentOf (pointsEarned totalPoints : nat) : number :=
  Math_round (mul (div (of_nat pointsEarned) (of_nat totalPoints)) (of_Z 100%Z)).

(** [Player.recordQuizAttempt]: [today] is what
    [new Date().toLocaleDateString()] returns at the time of the call. *)
Definition recordQuizAttempt (today : string) (pointsEarned totalPoints : nat)
    (p : Player) : Player :=
  {| username := username p;
     allScores := allScores p ++
       [ {| score := pointsEarned;
            total := totalPoints;
            percentage := percentOf pointsEarned totalPoints;
            timestamp := today |} ];
     recentScore := recentScore p |}.

(** [Player.clearCurrentScore]. *)
Definition clearCurrentScore (p : Player) : Player :=
  {| username := username p; allScores := allScores p; recentScore := 0 |}.

(** The mathematically exact percentage of [s] out of [t], rounded to the
    nearest integer, halves upwards: [floor ((200 s + t) / (2 t))]. *)
Definition exactPercent (s t : nat) : Z :=
  ((200 * Z.of_nat s + Z.of_nat t) / (2 * Z.of_nat t))%Z.

(* ================================================================== *)
(** ** Math.random and the comparator-driven sort *)
(* ================================================================== *)

(** The values [Math.random()] will return, in call order. *)
Definition RandomSource : Type := nat -> number.

(** Computations that draw from [Math.random]. *)
Definition Rand (A : Type) : Type := RandomSource -> A * RandomSource.

Definition ret {A : Type} (a : A) : Rand A := fun r => (a, r).

Definition bind {A B : Type} (m : Rand A) (k : A -> Rand B) : Rand B :=
  fun r => let (a, r') := m r in k a r'.

Notation "x <- m ;; k" := (bind m (fun x => k))
  (at level 61, m at next level, right associativity).

Definition Math_random : Rand number :=
  fun r => (r 0, fun n => r (S n)).

(** The arrow function handed to [remainingQs.sort] in the generator. *)
Definition compareFn (targetDiff : string) (q1 q2 : Question) : Rand number :=
  if String.eqb (difficultyLevel q1) targetDiff
     && negb (String.eqb (difficultyLevel q2) targetDiff)
  then ret (of_Z (-1)%Z)
  else if String.eqb (difficultyLevel q2) targetDiff
          && negb (String.eqb (difficultyLevel q1) targetDiff)
  then ret (of_Z 1%Z)
  else (r <- Math_random ;; ret (sub r js_0_5)).

(** [Array.prototype.sort(comparefn)] is a built-in of the host:
    ECMAScript fixes that it calls [comparefn] on pairs of elements and
    leaves the sequence of calls to the engine.  The model follows V8
    (Chrome, Node), whose sort is TimSort.  An array of fewer than two
    elements is returned as it is.  Otherwise V8 finds the run at the
    front of the array and extends it by binary insertion to the minimal
    run length, which for an array of fewer than 64 elements is the
    whole array; that is what is modelled here (the page asks for ten
    questions, so neither a tail of questions nor a list of choices
    comes near 64).  Longer arrays V8 cuts into several such runs and
    merges them; the model treats them as one run as well.

    [comparefn]'s result [v] is read as V8's [Compare] reads it: NaN
    counts as 0, so [v < 0] is false for it. *)
Section ArraySort.

Variable A : Type.
Variable comparefn : A -> A -> Rand number.

(** [order < 0]. *)
Definition negative (order : number) : bool := gt (of_Z 0%Z) order.

(** The loop of [CountAndMakeRun]: the run goes on while each element
    compares below its predecessor (descending run) or not below it
    (ascending run).  Returns the elements that extend the run and the
    elements left over.
<<
      for (idx = low + 1; idx < high; ++idx) {
        order = Compare(currentElement, previousElement);
        if (isDescending) { if (order >= 0) break; }
        else              { if (order < 0) break; }
        previousElement = currentElement; ++runLength;
      }
>> *)
Fixpoint extendRun (isDescending : bool) (previousElement : A) (rest : list A)
    : Rand (list A * list A) :=
  match rest with
  | [] => ret ([], [])
  | currentElement :: rest' =>
      order <- comparefn currentElement previousElement ;;
      if (if isDescending then negb (negative order) else negative order)
      then ret ([], rest)
      else (more <- extendRun isDescending currentElement rest' ;;
            ret (currentElement :: fst more, snd more))
  end.

(** [CountAndMakeRun] on an array of at least two elements: the first
    comparison, [Compare(a[1], a[0])], tells whether the run descends; a
    descending run is reversed in place.  Returns the run, ascending,
    and the elements behind it. *)
Definition CountAndMakeRun (first second : A) (rest : list A)
    : Rand (list A * list A) :=
  order <- comparefn second first ;;
  let isDescending := negative order in
  more <- extendRun isDescending second rest ;;
  let run := first :: second :: fst more in
  ret (if isDescending then rev run else run, snd more).

(** The search loop of [BinaryInsertionSort] for [pivot] in the sorted
    front [a[0 .. start)]:
<<
      while (left < right) {
        mid = left + ((right - left) >> 1);
        order = Compare(pivot, a[mid]);
        if (order < 0) right = mid; else left = mid + 1;
      }
>>
    [fuel] bounds the number of rounds; [right - left] rounds are more
    than the loop ever takes.  [a[mid]] always exists, since
    [mid < right <= start]. *)
Fixpoint searchLeft (fuel : nat) (pivot : A) (sorted : list A)
    (left right : nat) : Rand nat :=
  match fuel with
  | O => ret left
  | S fuel' =>
      if left <? right then
        let mid := left + (right - left) / 2 in
        match nth_error sorted mid with
        | None => ret left
        | Some midElement =>
            order <- comparefn pivot midElement ;;
            if negative order
            then searchLeft fuel' pivot sorted left mid
            else searchLeft fuel' pivot sorted (S mid) right
        end
      else ret left
  end.

(** [a[left .. start)] moves one place to the right and [pivot] goes to
    [a[left]]. *)
Definition insertAt (left : nat) (pivot : A) (sorted : list A) : list A :=
  firstn left sorted ++ pivot :: skipn left sorted.

(** The outer loop of [BinaryInsertionSort]: every element behind the
    sorted front is inserted into it in turn. *)
Fixpoint BinaryInsertionSort (sorted todo : list A) : Rand (list A) :=
  match todo with
  | [] => ret sorted
  | pivot :: todo' =>
      left <- searchLeft (List.length sorted) pivot sorted 0 (List.length sorted) ;;
      BinaryInsertionSort (insertAt left pivot sorted) todo'
  end.

Definition Array_sort (a : list A) : Rand (list A) :=
  match a with
  | first :: second :: rest =>
      found <- CountAndMakeRun first second rest ;;
      BinaryInsertionSort (fst found) (snd found)
  | _ => ret a
  end.

End ArraySort.

Arguments negative order : simpl never.
Arguments extendRun {A} comparefn isDescending previousElement rest.
Arguments CountAndMakeRun {A} comparefn first second rest.
Arguments searchLeft {A} comparefn fuel pivot sorted left right.
Arguments insertAt {A} left pivot sorted.
Arguments BinaryInsertionSort {A} comparefn sorted todo.
Arguments Array_sort {A} comparefn a.

(** The reordering of the generator: [remainingQs.sort(...)] for a given
    [targetDiff]. *)
Definition reorder (targetDiff : string) (remainingQs : list Question)
    : Rand (list Question) :=
  Array_sort (compareFn targetDiff) remainingQs.

(** Does a question carry the target difficulty? *)
Definition onTarget (targetDiff : string) (q : Question) : bool :=
  String.eqb (difficultyLevel q) targetDiff.

(** A sequence has its on-target questions first: once a question off
    the target is met, every later one is off the target too. *)
Fixpoint targetFirst (targetDiff : string) (l : list Question) : bool :=
  match l with
  | [] => true
  | q :: l' =>
      if onTarget targetDiff q then targetFirst targetDiff l'
      else forallb (fun q' => negb (onTarget targetDiff q')) l'
  end.

(** The same shape read from right to left, as the sort keeps its placed
    prefix: once an on-target question is met, all further ones are. *)
Fixpoint targetLast (targetDiff : string) (l : list Question) : bool :=
  match l with
  | [] => true
  | q :: l' =>
      if onTarget targetDiff q then forallb (onTarget targetDiff) l'
      else targetLast targetDiff l'
  end.

(* ================================================================== *)
(** ** Quiz, the generator and the page *)
(* ================================================================== *)

(** Where the generator object is suspended. *)
Inductive GenPc : Type :=
| SuspendedStart                 (* created, body not yet entered *)
| SuspendedYield (q : Question)  (* waiting at [yield q] *)
| Completed.                     (* returned 'Quiz finished!' *)

(** A generator object made by [quizFlowGenerator(quizObj)]: its program
    point and its locals [qIndex] and [correctCount]. *)
Record Generator : Type := mkGenerator {
  pc : GenPc;
  qIndex : nat;
  correctCount : nat
}.

(** What [quizFlowGenerator(quizObj)] returns: nothing has run yet. *)
Definition quizFlowGenerator_new : Generator :=
  {| pc := SuspendedStart; qIndex := 0; correctCount := 0 |}.

Record Quiz : Type := mkQuiz {
  playerObj : Player;
  allQuestions : list Question;
  currentQIndex : nat;
  totalScore : nat;
  quizRunning : bool;
  qGen : option Generator   (* [None] is [null] *)
}.

(** [new Quiz(playerObj)]. *)
Definition Quiz_new (p : Player) : Quiz :=
  {| playerObj := p; allQuestions := []; currentQIndex := 0;
     totalScore := 0; quizRunning := false; qGen := None |}.

(** What the page shows, in the order it is written to the document. *)
Inductive Shown : Type :=
| QuestionShown (q : Question) (index : nat) (scoreShown : nat)
    (* displayCurrentQuestion: number, text, score, answer buttons *)
| FeedbackShown (q : Question) (chosenAnswer : string) (answerIsRight : bool)
    (* selectAnswer: button classes and feedback area *)
| ResultShown (finalScore finalTotal : nat) (finalPercent : number)
    (* finishQuiz: quiz-content hidden, final-score shown, the
       final-result line *)
| LoadingPanelShown
    (* restartQuiz, before the request: final-score hidden, loading shown *)
| QuizPanelShown
    (* restartQuiz and QuizApp.init, questions loaded: loading hidden,
       quiz-content shown *)
| LoadFailedShown (message : string).
    (* restartQuiz and QuizApp.init, questions not loaded: the text put
       in the loading panel *)
    (* restartQuiz and QuizApp.init, load failed: the text put in loading *)

(** The quiz object together with what it reads and writes around it. *)
Record World : Type := mkWorld {
  quiz : Quiz;
  nextBtnShown : bool;       (* next-btn has display 'block' *)
  finishTimers : nat;        (* pending [setTimeout(() => this.finishQuiz())] *)
  random : RandomSource;     (* the future of [Math.random] *)
  today : string;            (* [new Date().toLocaleDateString()] *)
  shown : list Shown         (* document writes so far, oldest first *)
}.

Definition with_quiz (f : Quiz -> Quiz) (w : World) : World :=
  {| quiz := f (quiz w); nextBtnShown := nextBtnShown w;
     finishTimers := finishTimers w; random := random w;
     today := today w; shown := shown w |}.

Definition set_nextBtnShown (b : bool) (w : World) : World :=
  {| quiz := quiz w; nextBtnShown := b;
     finishTimers := finishTimers w; random := random w;
     today := today w; shown := shown w |}.

Definition set_finishTimers (n : nat) (w : World) : World :=
  {| quiz := quiz w; nextBtnShown := nextBtnShown w;
     finishTimers := n; random := random w;
     today := today w; shown := shown w |}.

Definition set_random (r : RandomSource) (w : World) : World :=
  {| quiz := quiz w; nextBtnShown := nextBtnShown w;
     finishTimers := finishTimers w; random := r;
     today := today w; shown := shown w |}.

Definition show (e : Shown) (w : World) : World :=
  {| quiz := quiz w; nextBtnShown := nextBtnShown w;
     finishTimers := finishTimers w; random := random w;
     today := today w; shown := shown w ++ [e] |}.

Definition set_playerObj (p : Player) (z : Quiz) : Quiz :=
  {| playerObj := p; allQuestions := allQuestions z;
     currentQIndex := currentQIndex z; totalScore := totalScore z;
     quizRunning := quizRunning z; qGen := qGen z |}.

Definition set_allQuestions (qs : list Question) (z : Quiz) : Quiz :=
  {| playerObj := playerObj z; allQuestions := qs;
     currentQIndex := currentQIndex z; totalScore := totalScore z;
     quizRunning := quizRunning z; qGen := qGen z |}.

Definition set_currentQIndex (i : nat) (z : Quiz) : Quiz :=
  {| playerObj := playerObj z; allQuestions := allQuestions z;
     currentQIndex := i; totalScore := totalScore z;
     quizRunning := quizRunning z; qGen := qGen z |}.

Definition set_totalScore (n : nat) (z : Quiz) : Quiz :=
  {| playerObj := playerObj z; allQuestions := allQuestions z;
     currentQIndex := currentQIndex z; totalScore := n;
     quizRunning := quizRunning z; qGen := qGen z |}.

Definition set_quizRunning (b : bool) (z : Quiz) : Quiz :=
  {| playerObj := playerObj z; allQuestions := allQuestions z;
     currentQIndex := currentQIndex z; totalScore := totalScore z;
     quizRunning := b; qGen := qGen z |}.

Definition set_qGen (g : option Generator) (z : Quiz) : Quiz :=
  {| playerObj := playerObj z; allQuestions := allQuestions z;
     currentQIndex := currentQIndex z; totalScore := totalScore z;
     quizRunning := quizRunning z; qGen := g |}.

(** How a call ends: normally with a value, or by throwing a TypeError
    (property access on [undefined] or [null]); the world is in both
    cases the one the call leaves behind. *)
Inductive Completion (A : Type) : Type :=
| Normal (a : A) (w : World)
| TypeError (w : World).

Arguments Normal {A} a w.
Arguments TypeError {A} w.

(** The world after a call, however it ended. *)
Definition worldOf {A : Type} (c : Completion A) : World :=
  match c with
  | Normal _ w => w
  | TypeError w => w
  end.

Definition threw {A : Type} (c : Completion A) : bool :=
  match c with
  | Normal _ _ => false
  | TypeError _ => true
  end.

(** The object returned by [gen.next]. *)
Inductive IterResult : Type :=
| Yielded (q : Question)           (* { value: q, done: false } *)
| Returned (value : option string). (* { value: ..., done: true } *)

Definition done (r : IterResult) : bool :=
  match r with
  | Yielded _ => false
  | Returned _ => true
  end.

(* ------------------------------------------------------------------ *)
(** *** function* quizFlowGenerator(quizObj) *)
(* ------------------------------------------------------------------ *)

Definition set_gen (g : Generator) (w : World) : World :=
  with_quiz (set_qGen (Some g)) w.

(** The body of [if (qIndex < length && qIndex > 0)], entered with the
    already incremented [qIndex]: the target difficulty from the running
    ratio, the tail [slice(qIndex)] sorted, and [allQuestions] replaced
    by [slice(0, qIndex)] followed by the sorted tail. *)
Definition adapt (qi cc : nat) (w : World) : World :=
  let currentPerf := div (of_nat cc) (of_nat qi) in
  let targetDiff := calculateDificultyLevel currentPerf in
  let remainingQs := skipn qi (allQuestions (quiz w)) in
  let (sorted, r) := reorder targetDiff remainingQs (random w) in
  set_random r
    (with_quiz (set_allQuestions (firstn qi (allQuestions (quiz w)) ++ sorted)) w).

(** The head of the [while] loop with locals [qIndex = qi] and
    [correctCount = cc]: [allQuestions[qi]] exists exactly when
    [qi < allQuestions.length]; the generator then suspends at
    [yield q], and otherwise returns. *)
Definition gen_loop (qi cc : nat) (w : World) : IterResult * World :=
  match nth_error (allQuestions (quiz w)) qi with
  | Some q =>
      (Yielded q,
       set_gen {| pc := SuspendedYield q; qIndex := qi; correctCount := cc |} w)
  | None =>
      (Returned (Some "Quiz finished!"%string),
       set_gen {| pc := Completed; qIndex := qi; correctCount := cc |} w)
  end.

(** From the resumption of [yield] (with the value sent in) to the next
    suspension. *)
Definition gen_resume (g : Generator) (q : Question) (sent : option string)
    (w : World) : IterResult * World :=
  let isRightAnswer :=
    match sent with
    | Some playerAnswer => validateAnswer q playerAnswer
    | None => false            (* [undefined === correctAns] *)
    end in
  let cc := if isRightAnswer then S (correctCount g) else correctCount g in
  let qi := S (qIndex g) in
  let w1 :=
    if (qi <? List.length (allQuestions (quiz w))) && (0 <? qi)
    then adapt qi cc w
    else w in
  gen_loop qi cc w1.

(** [this.qGen.next(sent)]. *)
Definition gen_next (sent : option string) (w : World) : Completion IterResult :=
  match qGen (quiz w) with
  | None => TypeError w
  | Some g =>
      match pc g with
      | SuspendedStart => let (r, w') := gen_loop 0 0 w in Normal r w'
      | SuspendedYield q => let (r, w') := gen_resume g q sent w in Normal r w'
      | Completed => Normal (Returned None) w
      end
  end.

(* ------------------------------------------------------------------ *)
(** *** class Quiz *)
(* ------------------------------------------------------------------ *)

(** [Quiz.finishQuiz]. *)
Definition finishQuiz (w : World) : World :=
  let w1 := with_quiz (set_quizRunning false) w in
  let z := quiz w1 in
  let n := List.length (allQuestions z) in
  let w2 :=
    with_quiz (set_playerObj
                 (recordQuizAttempt (today w1) (totalScore z) n (playerObj z))) w1 in
  show (ResultShown (totalScore z) n (percentOf (totalScore z) n)) w2.

(** [Quiz.displayCurrentQuestion]: [allQuestions[currentQIndex]] exists
    exactly when [currentQIndex < allQuestions.length]. *)
Definition displayCurrentQuestion (w : World) : World :=
  let z := quiz w in
  match nth_error (allQuestions z) (currentQIndex z) with
  | None => finishQuiz w
  | Some currentQ =>
      set_nextBtnShown false
        (show (QuestionShown currentQ (currentQIndex z) (totalScore z)) w)
  end.

(** [Quiz.initializeQuiz]. *)
Definition initializeQuiz (w : World) : Completion unit :=
  let w1 :=
    with_quiz (fun z =>
      set_playerObj (clearCurrentScore (playerObj z))
        (set_totalScore 0 (set_currentQIndex 0 (set_quizRunning true z)))) w in
  match gen_next None w1 with
  | TypeError w2 => TypeError w2
  | Normal genStart w2 =>
      Normal tt (if negb (done genStart) then displayCurrentQuestion w2 else w2)
  end.

(** The two increments under [if (answerIsRight)]. *)
Definition creditAnswer (z : Quiz) : Quiz :=
  set_playerObj
    {| username := username (playerObj z);
       allScores := allScores (playerObj z);
       recentScore := S (recentScore (playerObj z)) |}
    (set_totalScore (S (totalScore z)) z).

(** [Quiz.selectAnswer]. *)
Definition selectAnswer (chosenAnswer : string) (w : World) : Completion unit :=
  if negb (quizRunning (quiz w)) then Normal tt w
  else
    match nth_error (allQuestions (quiz w)) (currentQIndex (quiz w)) with
    | None => TypeError w      (* [currentQ] is undefined *)
    | Some currentQ =>
        let answerIsRight := validateAnswer currentQ chosenAnswer in
        let w1 := if answerIsRight then with_quiz creditAnswer w else w in
        let w2 := show (FeedbackShown currentQ chosenAnswer answerIsRight) w1 in
        match gen_next (Some chosenAnswer) w2 with
        | TypeError w3 => TypeError w3
        | Normal genResult w3 =>
            Normal tt
              (if negb (done genResult)
               then set_nextBtnShown true w3
               else set_finishTimers (S (finishTimers w3)) w3)
        end
    end.

(** [Quiz.moveToNextQ]. *)
Definition moveToNextQ (w : World) : World :=
  displayCurrentQuestion
    (with_quiz (fun z => set_currentQIndex (S (currentQIndex z)) z) w).

(** A pending [setTimeout(() => this.finishQuiz(), 1200)] comes due. *)
Definition fireTimer (w : World) : World :=
  match finishTimers w with
  | O => w
  | S n => finishQuiz (set_finishTimers n w)
  end.

(** What [Quiz.restartQuiz] and [QuizApp.init] do to the quiz, given
    what [fetchQuestionsFromAPI] obtained: [Some batch] when the
    questions were loaded into [allQuestions], [None] when the request
    failed.  ([restartQuizFetching] and [QuizApp_init] below are the two
    functions in full, with their own load and their writes to the
    panels of the page.) *)
Definition restartQuiz (fetched : option (list Question)) (w : World)
    : Completion unit :=
  match fetched with
  | None => Normal tt w
  | Some batch =>
      initializeQuiz
        (with_quiz (fun z =>
           set_qGen (Some quizFlowGenerator_new) (set_allQuestions batch z)) w)
  end.

(** The page right after [new QuizApp()]. *)
Definition QuizApp_new (r : RandomSource) (date : string) : World :=
  {| quiz := Quiz_new Player_new; nextBtnShown := false; finishTimers := 0;
     random := r; today := date; shown := [] |}.

(* ------------------------------------------------------------------ *)
(** *** The player at the page *)
(* ------------------------------------------------------------------ *)

(** Loading a batch and starting on it. *)
Definition start (batch : list Question) (w : World) : Completion unit :=
  restartQuiz (Some batch) w.

(** What follows an answer: the next button when the page shows it,
    otherwise the wait until the pending timer comes due. *)
Definition advance (w : World) : World :=
  if nextBtnShown w then moveToNextQ w else fireTimer w.

(** One answer clicked, then the advance. *)
Definition submitAnswer (chosenAnswer : string) (w : World) : World :=
  advance (worldOf (selectAnswer chosenAnswer w)).

(** A whole sequence of answers, one per question shown. *)
Definition play (answers : list string) (w : World) : World :=
  fold_left (fun w a => submitAnswer a w) answers w.

(** Number of quiz-complete notifications among document writes. *)
Fixpoint countComplete (l : list Shown) : nat :=
  match l with
  | [] => 0
  | ResultShown _ _ _ :: l' => S (countComplete l')
  | _ :: l' => countComplete l'
  end.

(** Number of answers whose validation against the question on display
    returned true. *)
Fixpoint countRight (l : list Shown) : nat :=
  match l with
  | [] => 0
  | FeedbackShown q a _ :: l' =>
      (if validateAnswer q a then 1 else 0) + countRight l'
  | _ :: l' => countRight l'
  end.

(** Number of answers submitted. *)
Fixpoint countAnswers (l : list Shown) : nat :=
  match l with
  | [] => 0
  | FeedbackShown _ _ _ :: l' => S (countAnswers l')
  | _ :: l' => countAnswers l'
  end.


(** Does the stored percentage agree with the exact one?  Checked on
    every score [s <= t] for the totals [1..n]. *)
Definition percent_agrees (s t : nat) : bool :=
  same (percentOf s t) (of_Z (exactPercent s t)).

Definition percent_agrees_upto (n : nat) : bool :=
  forallb (fun t => forallb (fun s => percent_agrees s t) (seq 0 (S t)))
          (seq 1 n).



(** [correctCount] of the generator held by the quiz. *)
Definition genCorrectCount (w : World) : option nat :=
  option_map correctCount (qGen (quiz w)).

(** The quiz waits for the answer to the question at position [k]: it is
    running, that question is on display with the next button hidden,
    and the generator is suspended at the [yield] of the same question
    with the same position. *)
Definition awaiting (k : nat) (w : World) : Prop :=
  quizRunning (quiz w) = true /\
  currentQIndex (quiz w) = k /\
  nextBtnShown w = false /\
  exists q,
    nth_error (allQuestions (quiz w)) k = Some q /\
    qGen (quiz w) =
      Some {| pc := SuspendedYield q; qIndex := k;
              correctCount := totalScore (quiz w) |}.


(** The spec's end-to-end scenario: difficulties easy, hard, medium;
    answers right, right, wrong. *)
Definition sampleBatch : list Question := [capitalQ; primeQ; planetQ].
Definition sampleAnswers : list string := ["Paris"; "97"; "Mars"].
Definition samplePage : World := QuizApp_new (fun _ => js_0_7) "3/11/2026".



(* ================================================================== *)
(** ** Loading the questions *)
(* ================================================================== *)

(** One element of [jsonData.results] as the code reads it; a missing
    [difficulty] is [None] (the constructor default then applies). *)
Record RawQuestion : Type := mkRawQuestion {
  question : string;
  correct_answer : string;
  incorrect_answers : list string;
  difficulty : option string
}.

(** How the two awaits of [fetchQuestionsFromAPI] end: one of them
    throws, or the parsed body arrives, with or without a [results]
    array. *)
Inductive FetchOutcome : Type :=
| FetchRejected
| FetchResponse (results : option (list RawQuestion)).

(** The comparator [() => Math.random() - 0.5] that mixes the choices. *)
Definition shuffleCompare (_ _ : string) : Rand number :=
  r <- Math_random ;; ret (sub r js_0_5).

(** What [fetchQuestionsFromAPI] returns: [true], [false], or nothing
    (when [jsonData.results] is missing). *)
Inductive FetchReturn : Type :=
| ReturnsTrue
| ReturnsFalse
| ReturnsUndefined.

Definition truthy (v : FetchReturn) : bool :=
  match v with
  | ReturnsTrue => true
  | _ => false
  end.

Section Loading.

(** [Quiz.unescapeHTMLEntities] lets the document decode the entities
    (a textarea's [innerHTML] read back as [value]); any function on
    strings may stand for it. *)
Variable unescapeHTMLEntities : string -> string.

(** A loaded question next to the raw record it is built from. *)
Definition builtFrom (raw : RawQuestion) (q : Question) : Prop :=
  questionText q = unescapeHTMLEntities (question raw) /\
  correctAns q = unescapeHTMLEntities (correct_answer raw) /\
  difficultyLevel q =
    match difficulty raw with Some d => d | None => "medium" end /\
  Permutation (answerChoices q)
    (map unescapeHTMLEntities (incorrect_answers raw ++ [correct_answer raw])).

(** The arrow function mapped over [jsonData.results]. *)
Definition buildQuestion (q : RawQuestion) : Rand Question :=
  shuffledChoices <-
    Array_sort shuffleCompare (incorrect_answers q ++ [correct_answer q]) ;;
  ret {| questionText := unescapeHTMLEntities (question q);
         answerChoices := map unescapeHTMLEntities shuffledChoices;
         correctAns := unescapeHTMLEntities (correct_answer q);
         difficultyLevel :=
           match difficulty q with
           | Some d => d
           | None => "medium"
           end |}.

(** [jsonData.results.map(...)], left to right. *)
Fixpoint mapResults (results : list RawQuestion) : Rand (list Question) :=
  match results with
  | [] => ret []
  | q :: rest =>
      built <- buildQuestion q ;;
      others <- mapResults rest ;;
      ret (built :: others)
  end.

(** [Quiz.fetchQuestionsFromAPI], given how the request ends. *)
Definition fetchQuestionsFromAPI (outcome : FetchOutcome) (w : World)
    : FetchReturn * World :=
  match outcome with
  | FetchRejected => (ReturnsFalse, w)
  | FetchResponse None => (ReturnsUndefined, w)
  | FetchResponse (Some results) =>
      let (qs, r) := mapResults results (random w) in
      (ReturnsTrue, set_random r (with_quiz (set_allQuestions qs) w))
  end.

(** [Quiz.restartQuiz] in full: the panels are switched to loading, the
    questions are fetched, and then either a new generator is made, the
    panels are switched to the quiz and the quiz initialized, or the
    failure is reported in the loading panel. *)
Definition restartQuizFetching (outcome : FetchOutcome) (w : World)
    : Completion unit :=
  let w0 := show LoadingPanelShown w in
  let (newQuestionsLoaded, w1) := fetchQuestionsFromAPI outcome w0 in
  if truthy newQuestionsLoaded
  then initializeQuiz
         (show QuizPanelShown
            (with_quiz (set_qGen (Some quizFlowGenerator_new)) w1))
  else Normal tt
         (show (LoadFailedShown "Couldn't reload questions. Try again plz.") w1).

(** [QuizApp.init] in full: the questions are fetched, and then either
    the panels are switched to the quiz, a generator is made and the
    quiz initialized, or the failure is reported in the loading
    panel. *)
Definition QuizApp_init (outcome : FetchOutcome) (w : World)
    : Completion unit :=
  let (questionsLoaded, w1) := fetchQuestionsFromAPI outcome w in
  if truthy questionsLoaded
  then initializeQuiz
         (with_quiz (set_qGen (Some quizFlowGenerator_new))
            (show QuizPanelShown w1))
  else Normal tt
         (show (LoadFailedShown
                  "Oops, couldn't load the questions. Try refreshing.") w1).

(** What can happen at the page, in any order: an answer button, the
    next button, the finishing timer coming due, and the restart button
    (taken at the moment its request settles, when the rest of the
    listener runs). *)
Inductive Action : Type :=
| ClickAnswer (chosenAnswer : string)
| ClickNext
| TimerDue
| ClickRestart (outcome : FetchOutcome).

(** The listener that runs; a thrown error ends the listener and leaves
    the page as it is at that point. *)
Definition handle (w : World) (act : Action) : World :=
  match act with
  | ClickAnswer chosenAnswer => worldOf (selectAnswer chosenAnswer w)
  | ClickNext => moveToNextQ w
  | TimerDue => fireTimer w
  | ClickRestart outcome => worldOf (restartQuizFetching outcome w)
  end.

Definition handleAll (acts : list Action) (w : World) : World :=
  fold_left handle acts w.

End Loading.

Definition isRestart (act : Action) : bool :=
  match act with
  | ClickRestart _ => true
  | _ => false
  end.

(** The completions among document writes, in order. *)
Fixpoint resultsShown (l : list Shown) : list (nat * nat * number) :=
  match l with
  | [] => []
  | ResultShown s t p :: l' => (s, t, p) :: resultsShown l'
  | _ :: l' => resultsShown l'
  end.

(** The questions put on display, in order. *)
Fixpoint questionsShown (l : list Shown) : list Question :=
  match l with
  | [] => []
  | QuestionShown q _ _ :: l' => q :: questionsShown l'
  | _ :: l' => questionsShown l'
  end.

(** What a history entry says about its attempt. *)
Definition attemptOf (e : ScoreRecord) : nat * nat * number :=
  (score e, total e, percentage e).

(** From [w] to [w'] the document and the history have only grown, the
    user name is kept, and the attempts appended are the completions
    shown, in the same order. *)
Definition grows (w w' : World) : Prop :=
  exists new added,
    shown w' = shown w ++ new /\
    allScores (playerObj (quiz w')) = allScores (playerObj (quiz w)) ++ added /\
    username (playerObj (quiz w')) = username (playerObj (quiz w)) /\
    map attemptOf added = resultsShown new.

(** The document reads consistently from a state in which [pos]
    questions have been displayed, [points] right answers fed back, and
    [onDisplay] is the question last put on display: every question
    comes with the next number and the points so far, every feedback is
    about the question on display and tells what the validation of the
    answer against it returned, and every result carries the points so
    far. *)
Fixpoint consistentFrom (pos points : nat) (onDisplay : option Question)
    (l : list Shown) : Prop :=
  match l with
  | [] => True
  | QuestionShown q index scoreShown :: l' =>
      index = pos /\ scoreShown = points /\
      consistentFrom (S pos) points (Some q) l'
  | FeedbackShown q a answerIsRight :: l' =>
      onDisplay = Some q /\
      answerIsRight = validateAnswer q a /\
      consistentFrom pos (if answerIsRight then S points else points)
        onDisplay l'
  | ResultShown finalScore _ _ :: l' =>
      finalScore = points /\ consistentFrom pos points onDisplay l'
  | _ :: l' => consistentFrom pos points onDisplay l'
  end.

(** Two pages that differ in nothing but what the document shows. *)
Definition docOnly (w w' : World) : Prop :=
  quiz w = quiz w' /\
  nextBtnShown w = nextBtnShown w' /\
  finishTimers w = finishTimers w' /\
  random w = random w' /\
  today w = today w'.

(** The three targets in rising order; any other string ranks with
    "easy". *)
Definition levelRank (level : string) : nat :=
  if String.eqb level "hard" then 2
  else if String.eqb level "medium" then 1
  else 0.

(** The target the generator computes after [qi] answers of which [cc]
    were right. *)
Definition targetAfter (cc qi : nat) : string :=
  calculateDificultyLevel (div (of_nat cc) (of_nat qi)).

(** A perfect record targets "hard" and an empty one "easy", checked at
    every position [1..n]. *)
Definition extremes_upto (n : nat) : bool :=
  forallb (fun qi => String.eqb (targetAfter qi qi) "hard"
                     && String.eqb (targetAfter 0 qi) "easy")
          (seq 1 n).

(** A raw record used as a concrete input. *)
Definition rawCapital : RawQuestion :=
  {| question := "Capital of France?";
     correct_answer := "Paris";
     incorrect_answers := ["Rome"; "Oslo"; "Bern"];
     difficulty := Some "easy" |}.

(** Projections of updated worlds. *)
Ltac fields :=
  cbn [quiz nextBtnShown finishTimers random today shown
       playerObj allQuestions currentQIndex totalScore quizRunning qGen
       pc qIndex correctCount
       with_quiz set_nextBtnShown set_finishTimers set_random show
       set_playerObj set_allQuestions set_currentQIndex set_totalScore
       set_quizRunning set_qGen set_gen creditAnswer clearCurrentScore
       recordQuizAttempt username allScores recentScore
       worldOf threw done fst snd negb].

Tactic Notation "fields" "in" hyp(H) :=
  cbn [quiz nextBtnShown finishTimers random today shown
       playerObj allQuestions currentQIndex totalScore quizRunning qGen
       pc qIndex correctCount
       with_quiz set_nextBtnShown set_finishTimers set_random show
       set_playerObj set_allQuestions set_currentQIndex set_totalScore
       set_quizRunning set_qGen set_gen creditAnswer clearCurrentScore
       recordQuizAttempt username allScores recentScore
       worldOf threw done fst snd negb] in H.

(* ================================================================== *)
(** * Properties *)
(* ================================================================== *)

(** ** Numbers *)

Lemma same_eq (a b : number) : same a b = true -> a = b.
Proof.
  destruct a as [s| s| |s m e], b as [s'| s'| |s' m' e']; simpl; try discriminate.
  - intros H; apply Bool.eqb_prop in H; congruence.
  - intros H; apply Bool.eqb_prop in H; congruence.
  - reflexivity.
  - intros H.
    apply andb_true_iff in H as [H He].
    apply andb_true_iff in H as [Hs Hm].
    apply Bool.eqb_prop in Hs. apply Pos.eqb_eq in Hm. apply Z.eqb_eq in He.
    congruence.
Qed.

(** The literals of the source are the doubles nearest to 7/10, 4/10
    and 1/2. *)
Lemma literals_are_nearest_doubles :
  js_0_7 = lit 7 10 /\ js_0_4 = lit 4 10 /\ js_0_5 = lit 1 2.
Proof. repeat split; vm_compute; reflexivity. Qed.

(** Comparing in the other direction gives the opposite answer. *)
Lemma SFcompare_swap (x y : number) :
  SFcompare y x = option_map CompOpp (SFcompare x y).
Proof.
  destruct x as [s| s| |s m e], y as [s'| s'| |s' m' e']; simpl;
    try reflexivity;
    try (destruct s; reflexivity);
    try (destruct s'; reflexivity);
    try (destruct s, s'; reflexivity).
  destruct s, s'; simpl; try reflexivity.
  - rewrite (Z.compare_antisym e e').
    destruct (e ?= e')%Z; simpl; try reflexivity.
    rewrite (Pos.compare_cont_antisym m m' Eq). simpl. reflexivity.
  - rewrite (Z.compare_antisym e e').
    destruct (e ?= e')%Z; simpl; try reflexivity.
    rewrite (Pos.compare_cont_antisym m m' Eq). simpl.
    destruct (Pos.compare_cont Eq m m'); reflexivity.
Qed.

Lemma le_not_gt (x c : number) : le x c = true -> gt x c = false.
Proof.
  unfold le, gt, SFleb, SFltb. rewrite (SFcompare_swap x c).
  destruct (SFcompare x c) as [[ | | ]|]; simpl; congruence.
Qed.

(** A number above some non-NaN [c'] is not NaN itself; when it is not
    above the non-NaN [c] either, it is at most [c]. *)
Lemma not_gt_le (x c c' : number) :
  c' <> S754_nan -> c <> S754_nan ->
  gt x c' = true -> gt x c = false -> le x c = true.
Proof.
  intros Hc' Hc. unfold le, gt, SFleb, SFltb.
  rewrite (SFcompare_swap x c).
  destruct x as [s| s| |s m e].
  - destruct c as [t| t| |t n f]; simpl; try congruence;
      destruct t; simpl; congruence.
  - destruct c as [t| t| |t n f]; simpl; try congruence;
      destruct s; try destruct t; simpl; congruence.
  - destruct c' as [t| t| |t n f]; simpl; congruence.
  - destruct (SFcompare (S754_finite s m e) c) as [[ | | ]|] eqn:E;
      simpl; try congruence.
    destruct c as [t| t| |t n f]; simpl in E; congruence.
Qed.

(** ** C4: the difficulty thresholds *)

(** C4.  For every performance ratio [r] (any Number, NaN included),
    [calculateDificultyLevel r] is "hard" when [r > 0.7], "medium" when
    [0.4 < r <= 0.7], and "easy" in every other case; the comparisons are
    strict, so 0.7 itself gives "medium", 0.4 itself gives "easy" and 0
    gives "easy" (and 0.71 gives "hard", 0.41 gives "medium"). *)
Theorem calculateDificultyLevel_thresholds :
  (forall r : number,
      (gt r js_0_7 = true -> calculateDificultyLevel r = "hard"%string) /\
      (gt r js_0_4 = true -> le r js_0_7 = true ->
         calculateDificultyLevel r = "medium"%string) /\
      (gt r js_0_7 = false ->
       gt r js_0_4 && le r js_0_7 = false ->
         calculateDificultyLevel r = "easy"%string)) /\
  calculateDificultyLevel (lit 7 10) = "medium"%string /\
  calculateDificultyLevel (lit 4 10) = "easy"%string /\
  calculateDificultyLevel (of_Z 0) = "easy"%string /\
  calculateDificultyLevel (lit 71 100) = "hard"%string /\
  calculateDificultyLevel (lit 41 100) = "medium"%string.
Proof.
  split.
  - intros r. unfold calculateDificultyLevel. repeat split.
    + intros H. rewrite H. reflexivity.
    + intros H4 H7. rewrite (le_not_gt _ _ H7), H4. reflexivity.
    + intros H7 Hmid. rewrite H7.
      destruct (gt r js_0_4) eqn:H4; [|reflexivity].
      simpl in Hmid.
      rewrite (not_gt_le r js_0_7 js_0_4) in Hmid;
        try discriminate; assumption.
  - repeat split; vm_compute; reflexivity.
Qed.

(** ** C9: the recorded percentage *)

Lemma percent_agrees_39 : percent_agrees_upto 39 = true.
Proof. vm_compute. reflexivity. Qed.

Lemma percentOf_exact (s t : nat) :
  0 < t -> t <= 39 -> s <= t -> percentOf s t = of_Z (exactPercent s t).
Proof.
  intros Ht0 Ht Hs.
  apply same_eq.
  pose proof percent_agrees_39 as H.
  unfold percent_agrees_upto in H.
  rewrite forallb_forall in H.
  specialize (H t). rewrite in_seq in H.
  assert (Hin : 1 <= t < 1 + 39) by lia.
  specialize (H Hin).
  rewrite forallb_forall in H.
  apply (H s). rewrite in_seq. lia.
Qed.

(** The percentage stored by the entry that [recordQuizAttempt] appends. *)
Lemma recordQuizAttempt_appends (date : string) (s t : nat) (p : Player) :
  allScores (recordQuizAttempt date s t p) =
  allScores p ++
  [ {| score := s; total := t;
       percentage :=
         Math_round (mul (div (of_nat s) (of_nat t)) (of_Z 100%Z));
       timestamp := date |} ].
Proof. reflexivity. Qed.

(** C9, as the code has it.  [recordQuizAttempt s t] appends one entry
    [{score: s, total: t, percentage, timestamp}] and nothing else; for
    every total [0 < t <= 39] and every score [s <= t] its percentage is
    the exactly rounded [100 s / t] (halves upwards); in particular
    (7, 10) gives 70, (1, 3) gives 33 and (2, 3) gives 67. *)
Theorem recordQuizAttempt_percentage (date : string) (s t : nat) (p : Player) :
  0 < t -> t <= 39 -> s <= t ->
  allScores (recordQuizAttempt date s t p) =
    allScores p ++
    [ {| score := s; total := t;
         percentage := of_Z (exactPercent s t); timestamp := date |} ] /\
  percentOf 7 10 = of_Z 70%Z /\
  percentOf 1 3 = of_Z 33%Z /\
  percentOf 2 3 = of_Z 67%Z.
Proof.
  intros Ht0 Ht Hs. split.
  - unfold recordQuizAttempt. simpl.
    rewrite (percentOf_exact s t Ht0 Ht Hs). reflexivity.
  - repeat split; vm_compute; reflexivity.
Qed.

Lemma recordQuizAttempt_percentage_witness :
  (0 < 10 /\ 10 <= 39 /\ 7 <= 10) /\
  allScores (recordQuizAttempt "3/11/2026" 7 10 Player_new) =
    [ {| score := 7; total := 10;
         percentage := of_Z 70%Z; timestamp := "3/11/2026" |} ].
Proof.
  split; [lia|].
  destruct (recordQuizAttempt_percentage "3/11/2026" 7 10 Player_new)
    as [H _]; [lia | lia | lia | ].
  rewrite H. reflexivity.
Defined.

(** C9, as stated, fails for large totals: 23 out of 40 is exactly
    57.5 percent, which rounds to 58, but the double product
    [(23 / 40) * 100] is 57.49999999999999 and the entry stores 57. *)
Lemma recordQuizAttempt_23_of_40 :
  map percentage (allScores (recordQuizAttempt "" 23 40 Player_new)) =
    [ of_Z 57%Z ] /\
  exactPercent 23 40 = 58%Z /\
  of_Z 57%Z <> of_Z 58%Z.
Proof.
  repeat split; try (vm_compute; reflexivity).
  vm_compute. discriminate.
Qed.

(** ** C7: answers outside a running quiz *)

Lemma selectAnswer_stopped (chosenAnswer : string) (w : World) :
  quizRunning (quiz w) = false ->
  selectAnswer chosenAnswer w = Normal tt w.
Proof.
  intros H. unfold selectAnswer. rewrite H. reflexivity.
Qed.

(** C7.  In every state with [quizRunning = false], [selectAnswer]
    returns normally and leaves the whole world as it was: score,
    position, generator, timers and document are untouched. *)
Theorem selectAnswer_not_running (chosenAnswer : string) (w : World) :
  quizRunning (quiz w) = false ->
  selectAnswer chosenAnswer w = Normal tt w.
Proof.
  intros Hstopped. unfold selectAnswer.
  rewrite Hstopped. cbn [negb]. reflexivity.
Qed.

Lemma selectAnswer_not_running_witness :
  quizRunning (quiz (QuizApp_new (fun _ => js_0_5) "3/11/2026")) = false /\
  selectAnswer "Paris" (QuizApp_new (fun _ => js_0_5) "3/11/2026") =
  Normal tt (QuizApp_new (fun _ => js_0_5) "3/11/2026").
Proof.
  split; [reflexivity|].
  apply selectAnswer_not_running. reflexivity.
Defined.

(** ** C6: starting on an empty batch *)

(** What [start] does on the empty batch. *)
Lemma start_empty_world (w : World) :
  start [] w =
  Normal tt
    (set_gen {| pc := Completed; qIndex := 0; correctCount := 0 |}
       (with_quiz (fun z =>
          set_playerObj (clearCurrentScore (playerObj z))
            (set_totalScore 0 (set_currentQIndex 0 (set_quizRunning true z))))
          (with_quiz (fun z =>
             set_qGen (Some quizFlowGenerator_new) (set_allQuestions [] z)) w))).
Proof. reflexivity. Qed.

(** C6, as the code has it.  [start] on a batch of zero questions does
    not fail: it returns normally with [quizRunning = true], position
    and score 0, the generator already finished, nothing written to the
    document, no timer set and no attempt recorded. *)
Theorem start_empty_batch (w : World) :
  exists w',
    start [] w = Normal tt w' /\
    quizRunning (quiz w') = true /\
    currentQIndex (quiz w') = 0 /\
    totalScore (quiz w') = 0 /\
    allQuestions (quiz w') = [] /\
    option_map pc (qGen (quiz w')) = Some Completed /\
    shown w' = shown w /\
    finishTimers w' = finishTimers w /\
    allScores (playerObj (quiz w')) = allScores (playerObj (quiz w)).
Proof.
  eexists. split; [apply start_empty_world|].
  repeat split.
Qed.

(** C6, as stated, fails: on the empty batch [start] throws nothing and
    the quiz is left running. *)
Lemma start_empty_batch_no_error :
  threw (start [] (QuizApp_new (fun _ => js_0_5) "3/11/2026")) = false /\
  quizRunning
    (quiz (worldOf (start [] (QuizApp_new (fun _ => js_0_5) "3/11/2026"))))
  = true.
Proof. split; reflexivity. Qed.

(** ** C3: sorting permutes *)

Section SortPermutes.

Variable A : Type.
Variable comparefn : A -> A -> Rand number.

Lemma extendRun_cons (isDescending : bool) (previousElement currentElement : A)
    (rest : list A) (r : RandomSource) :
  extendRun comparefn isDescending previousElement (currentElement :: rest) r =
  let (order, r1) := comparefn currentElement previousElement r in
  if (if isDescending then negb (negative order) else negative order)
  then (([], currentElement :: rest), r1)
  else let (more, r2) := extendRun comparefn isDescending currentElement rest r1 in
       ((currentElement :: fst more, snd more), r2).
Proof.
  cbn [extendRun]. unfold bind, ret.
  destruct (comparefn currentElement previousElement r) as [order r1].
  destruct (if isDescending then negb (negative order) else negative order);
    reflexivity.
Qed.

(** The run and what is left behind it are the array, cut in two. *)
Lemma extendRun_cut (isDescending : bool) (rest : list A) :
  forall (previousElement : A) (r : RandomSource),
    fst (fst (extendRun comparefn isDescending previousElement rest r)) ++
    snd (fst (extendRun comparefn isDescending previousElement rest r)) = rest.
Proof.
  induction rest as [|c rest IH]; intros p r; [reflexivity|].
  rewrite extendRun_cons.
  destruct (comparefn c p r) as [order r1].
  destruct (if isDescending then negb (negative order) else negative order);
    [reflexivity|].
  specialize (IH c r1).
  destruct (extendRun comparefn isDescending c rest r1) as [more r2].
  cbn [fst snd app] in *. rewrite IH. reflexivity.
Qed.

Lemma CountAndMakeRun_eq (first second : A) (rest : list A) (r : RandomSource) :
  CountAndMakeRun comparefn first second rest r =
  let (order, r1) := comparefn second first r in
  let (more, r2) := extendRun comparefn (negative order) second rest r1 in
  ((if negative order
    then rev (first :: second :: fst more)
    else first :: second :: fst more, snd more), r2).
Proof.
  unfold CountAndMakeRun, bind, ret.
  destruct (comparefn second first r) as [order r1].
  destruct (extendRun comparefn (negative order) second rest r1) as [more r2].
  reflexivity.
Qed.

Lemma CountAndMakeRun_perm (first second : A) (rest : list A) (r : RandomSource) :
  Permutation
    (fst (fst (CountAndMakeRun comparefn first second rest r)) ++
     snd (fst (CountAndMakeRun comparefn first second rest r)))
    (first :: second :: rest).
Proof.
  rewrite CountAndMakeRun_eq.
  destruct (comparefn second first r) as [order r1].
  pose proof (extendRun_cut (negative order) rest second r1) as Hcut.
  destruct (extendRun comparefn (negative order) second rest r1) as [more r2].
  cbn [fst snd] in *.
  apply Permutation_trans with ((first :: second :: fst more) ++ snd more).
  - apply Permutation_app_tail.
    destruct (negative order);
      [apply Permutation_sym, Permutation_rev | apply Permutation_refl].
  - cbn [app]. rewrite Hcut. apply Permutation_refl.
Qed.

Lemma insertAt_perm (left : nat) (pivot : A) (sorted : list A) :
  Permutation (insertAt left pivot sorted) (pivot :: sorted).
Proof.
  unfold insertAt. apply Permutation_sym.
  rewrite <- (firstn_skipn left sorted) at 1.
  apply Permutation_middle.
Qed.

Lemma BinaryInsertionSort_cons (sorted : list A) (pivot : A) (todo : list A)
    (r : RandomSource) :
  BinaryInsertionSort comparefn sorted (pivot :: todo) r =
  let (left, r1) :=
    searchLeft comparefn (List.length sorted) pivot sorted 0 (List.length sorted) r in
  BinaryInsertionSort comparefn (insertAt left pivot sorted) todo r1.
Proof. reflexivity. Qed.

Lemma BinaryInsertionSort_perm (todo : list A) :
  forall (sorted : list A) (r : RandomSource),
    Permutation (fst (BinaryInsertionSort comparefn sorted todo r))
                (sorted ++ todo).
Proof.
  induction todo as [|pivot todo IH]; intros sorted r.
  - cbn. rewrite app_nil_r. apply Permutation_refl.
  - rewrite BinaryInsertionSort_cons.
    destruct (searchLeft comparefn _ pivot sorted 0 _ r) as [left r1].
    eapply Permutation_trans; [apply IH|].
    apply Permutation_trans with ((pivot :: sorted) ++ todo).
    + apply Permutation_app_tail, insertAt_perm.
    + cbn [app]. apply Permutation_middle.
Qed.

Lemma Array_sort_eq (first second : A) (rest : list A) (r : RandomSource) :
  Array_sort comparefn (first :: second :: rest) r =
  let (found, r1) := CountAndMakeRun comparefn first second rest r in
  BinaryInsertionSort comparefn (fst found) (snd found) r1.
Proof. reflexivity. Qed.

Lemma Array_sort_perm (a : list A) (r : RandomSource) :
  Permutation (fst (Array_sort comparefn a r)) a.
Proof.
  destruct a as [|first [|second rest]]; try apply Permutation_refl.
  rewrite Array_sort_eq.
  pose proof (CountAndMakeRun_perm first second rest r) as HP.
  destruct (CountAndMakeRun comparefn first second rest r) as [found r1].
  cbn [fst] in HP.
  eapply Permutation_trans; [apply BinaryInsertionSort_perm | exact HP].
Qed.

Lemma searchLeft_step (fuel : nat) (pivot : A) (sorted : list A)
    (left right : nat) (r : RandomSource) :
  searchLeft comparefn (S fuel) pivot sorted left right r =
  if left <? right then
    match nth_error sorted (left + (right - left) / 2) with
    | None => (left, r)
    | Some midElement =>
        let (order, r1) := comparefn pivot midElement r in
        if negative order
        then searchLeft comparefn fuel pivot sorted left
               (left + (right - left) / 2) r1
        else searchLeft comparefn fuel pivot sorted
               (S (left + (right - left) / 2)) right r1
    end
  else (left, r).
Proof.
  cbn [searchLeft]. destruct (left <? right); [|reflexivity].
  destruct (nth_error sorted (left + (right - left) / 2)); [|reflexivity].
  unfold bind. destruct (comparefn pivot a r) as [order r1].
  destruct (negative order); reflexivity.
Qed.

Lemma half_below (left right : nat) :
  left < right ->
  left <= left + (right - left) / 2 /\ left + (right - left) / 2 < right.
Proof.
  intros H. split; [lia|].
  assert ((right - left) / 2 < right - left)
    by (apply Nat.div_lt; lia).
  lia.
Qed.

(** The search never runs out of rounds: with [right - left] rounds or
    more it gives the same result as with any larger number, so the
    bound in [BinaryInsertionSort] cuts nothing off. *)
Lemma searchLeft_enough (fuel : nat) (pivot : A) (sorted : list A) :
  forall (left right : nat) (r : RandomSource),
    right - left <= fuel ->
    searchLeft comparefn (S fuel) pivot sorted left right r =
    searchLeft comparefn fuel pivot sorted left right r.
Proof.
  induction fuel as [|fuel IH]; intros left right r Hf.
  - rewrite searchLeft_step.
    destruct (left <? right) eqn:E; [|reflexivity].
    apply Nat.ltb_lt in E. lia.
  - rewrite (searchLeft_step (S fuel)), (searchLeft_step fuel).
    destruct (left <? right) eqn:E; [|reflexivity].
    apply Nat.ltb_lt in E. destruct (half_below left right E) as [H1 H2].
    destruct (nth_error sorted (left + (right - left) / 2)); [|reflexivity].
    destruct (comparefn pivot a r) as [order r1].
    destruct (negative order); apply IH; lia.
Qed.

(** The place found lies within the range searched. *)
Lemma searchLeft_range (fuel : nat) (pivot : A) (sorted : list A) :
  forall (left right : nat) (r : RandomSource),
    left <= right ->
    left <= fst (searchLeft comparefn fuel pivot sorted left right r) <= right.
Proof.
  induction fuel as [|fuel IH]; intros left right r Hlr; [cbn; lia|].
  rewrite searchLeft_step.
  destruct (left <? right) eqn:E; [|cbn; lia].
  apply Nat.ltb_lt in E. destruct (half_below left right E) as [H1 H2].
  destruct (nth_error sorted (left + (right - left) / 2)); [|cbn; lia].
  destruct (comparefn pivot a r) as [order r1].
  destruct (negative order).
  - specialize (IH left (left + (right - left) / 2) r1 H1). lia.
  - specialize (IH (S (left + (right - left) / 2)) right r1 H2). lia.
Qed.

End SortPermutes.

(** C3.  For every tail, every target difficulty and every future of
    [Math.random], the reordered sequence is a permutation of the tail:
    the same questions with the same multiplicities. *)
Theorem reorder_permutation (targetDiff : string) (tail : list Question)
    (r : RandomSource) :
  Permutation (fst (reorder targetDiff tail r)) tail.
Proof. apply Array_sort_perm. Qed.

Lemma reorder_length (targetDiff : string) (tail : list Question)
    (r : RandomSource) :
  List.length (fst (reorder targetDiff tail r)) = List.length tail.
Proof. apply Permutation_length, Array_sort_perm. Qed.

(** ** C2: the target difficulty leads *)

Lemma compareFn_cases (targetDiff : string) (q1 q2 : Question)
    (r : RandomSource) :
  compareFn targetDiff q1 q2 r =
  if onTarget targetDiff q1 && negb (onTarget targetDiff q2)
  then (of_Z (-1)%Z, r)
  else if onTarget targetDiff q2 && negb (onTarget targetDiff q1)
  then (of_Z 1%Z, r)
  else (sub (r 0) js_0_5, fun n => r (S n)).
Proof.
  unfold compareFn, onTarget.
  destruct (String.eqb (difficultyLevel q1) targetDiff),
           (String.eqb (difficultyLevel q2) targetDiff); reflexivity.
Qed.

Lemma negative_minus_one : negative (of_Z (-1)%Z) = true.
Proof. reflexivity. Qed.

Lemma negative_one : negative (of_Z 1%Z) = false.
Proof. reflexivity. Qed.

Lemma forallb_reverse (A : Type) (P : A -> bool) (l : list A) :
  forallb P (rev l) = forallb P l.
Proof.
  induction l as [|x l IH]; [reflexivity|].
  cbn [rev forallb]. rewrite forallb_app, IH. cbn.
  destruct (P x), (forallb P l); reflexivity.
Qed.

Lemma targetLast_rev (targetDiff : string) (placed : list Question) :
  targetLast targetDiff placed = true ->
  targetFirst targetDiff (rev placed) = true.
Proof.
  assert (snoc_on : forall l q,
            targetFirst targetDiff l = true ->
            forallb (onTarget targetDiff) l = true \/ onTarget targetDiff q = false ->
            targetFirst targetDiff (l ++ [q]) = true).
  { induction l as [|x l IHl]; intros q Hl Hor; cbn [app targetFirst] in *.
    - destruct (onTarget targetDiff q); reflexivity.
    - destruct (onTarget targetDiff x) eqn:Ex.
      + apply IHl; [exact Hl|].
        destruct Hor as [Hall|Hq]; [left|right; exact Hq].
        cbn [forallb] in Hall. rewrite Ex in Hall. exact Hall.
      + destruct Hor as [Hall|Hq].
        * cbn [forallb] in Hall. rewrite Ex in Hall. discriminate.
        * rewrite forallb_app, Hl. cbn. rewrite Hq. reflexivity. }
  assert (all_on : forall l,
            forallb (onTarget targetDiff) l = true ->
            targetFirst targetDiff l = true).
  { induction l as [|x l IHl]; intros Hall; cbn in *; [reflexivity|].
    apply andb_true_iff in Hall as [Hx Hall]. rewrite Hx. auto. }
  induction placed as [|q rest IH]; intros H; cbn [rev targetLast] in *.
  - reflexivity.
  - destruct (onTarget targetDiff q) eqn:Eq.
    + apply snoc_on.
      * apply all_on. rewrite forallb_reverse. exact H.
      * left. rewrite forallb_reverse. exact H.
    + apply snoc_on; [apply IH; exact H | right; exact Eq].
Qed.

(** An ascending run has its on-target questions first: a question on
    the target never follows one off it, for then the comparator says
    -1 and the run ends. *)
Lemma extendRun_ascending (targetDiff : string) (rest : list Question) :
  forall (previous : Question) (r : RandomSource),
    targetFirst targetDiff
      (previous ::
       fst (fst (extendRun (compareFn targetDiff) false previous rest r))) = true.
Proof.
  induction rest as [|c rest IH]; intros p r.
  - cbn. destruct (onTarget targetDiff p); reflexivity.
  - rewrite extendRun_cons, compareFn_cases.
    destruct (onTarget targetDiff c) eqn:Ec;
      destruct (onTarget targetDiff p) eqn:Ep; cbn [andb negb].
    + (* both on target: the draw decides *)
      destruct (negative (sub (r 0) js_0_5)).
      * cbn [fst targetFirst]. rewrite Ep. reflexivity.
      * specialize (IH c (fun n => r (S n))).
        destruct (extendRun (compareFn targetDiff) false c rest _) as [more r2].
        cbn [fst targetFirst] in *. rewrite Ep. exact IH.
    + (* on target after off target: -1, the run ends *)
      rewrite negative_minus_one. cbn [fst targetFirst forallb]. rewrite Ep.
      reflexivity.
    + (* off target after on target: 1, the run goes on *)
      rewrite negative_one.
      specialize (IH c r).
      destruct (extendRun (compareFn targetDiff) false c rest r) as [more r2].
      cbn [fst targetFirst] in *. rewrite Ep. exact IH.
    + (* both off target: the draw decides *)
      destruct (negative (sub (r 0) js_0_5)).
      * cbn [fst targetFirst forallb]. rewrite Ep. reflexivity.
      * specialize (IH c (fun n => r (S n))).
        destruct (extendRun (compareFn targetDiff) false c rest _) as [more r2].
        cbn [fst targetFirst forallb] in *. rewrite Ep. rewrite Ec in *.
        cbn [negb andb]. exact IH.
Qed.

(** A descending run has its on-target questions last: a question off
    the target never follows one on it, for then the comparator says 1
    and the run ends. *)
Lemma extendRun_descending (targetDiff : string) (rest : list Question) :
  forall (previous : Question) (r : RandomSource),
    targetLast targetDiff
      (previous ::
       fst (fst (extendRun (compareFn targetDiff) true previous rest r))) = true.
Proof.
  induction rest as [|c rest IH]; intros p r.
  - cbn. destruct (onTarget targetDiff p); reflexivity.
  - rewrite extendRun_cons, compareFn_cases.
    destruct (onTarget targetDiff c) eqn:Ec;
      destruct (onTarget targetDiff p) eqn:Ep; cbn [andb negb].
    + destruct (negative (sub (r 0) js_0_5)); cbn [negb].
      * specialize (IH c (fun n => r (S n))).
        destruct (extendRun (compareFn targetDiff) true c rest _) as [more r2].
        cbn [fst targetLast forallb] in *. rewrite Ep. rewrite Ec in *.
        cbn [andb]. exact IH.
      * cbn [fst targetLast forallb]. rewrite Ep. reflexivity.
    + rewrite negative_minus_one. cbn [negb].
      specialize (IH c r).
      destruct (extendRun (compareFn targetDiff) true c rest r) as [more r2].
      cbn [fst targetLast] in *. rewrite Ep. exact IH.
    + rewrite negative_one. cbn [negb fst targetLast forallb]. rewrite Ep.
      reflexivity.
    + destruct (negative (sub (r 0) js_0_5)); cbn [negb].
      * specialize (IH c (fun n => r (S n))).
        destruct (extendRun (compareFn targetDiff) true c rest _) as [more r2].
        cbn [fst targetLast] in *. rewrite Ep. exact IH.
      * cbn [fst targetLast]. rewrite Ep. reflexivity.
Qed.

Lemma CountAndMakeRun_targetFirst (targetDiff : string)
    (first second : Question) (rest : list Question) (r : RandomSource) :
  targetFirst targetDiff
    (fst (fst (CountAndMakeRun (compareFn targetDiff) first second rest r)))
  = true.
Proof.
  rewrite CountAndMakeRun_eq, compareFn_cases.
  destruct (onTarget targetDiff second) eqn:Es;
    destruct (onTarget targetDiff first) eqn:Ef; cbn [andb negb].
  - (* both on target *)
    destruct (negative (sub (r 0) js_0_5)).
    + pose proof (extendRun_descending targetDiff rest second (fun n => r (S n))) as H.
      destruct (extendRun (compareFn targetDiff) true second rest _) as [more r2].
      cbn [fst] in *. apply targetLast_rev.
      cbn [targetLast forallb] in *. rewrite Ef. rewrite Es in *.
      cbn [andb]. exact H.
    + pose proof (extendRun_ascending targetDiff rest second (fun n => r (S n))) as H.
      destruct (extendRun (compareFn targetDiff) false second rest _) as [more r2].
      cbn [fst targetFirst] in *. rewrite Ef. exact H.
  - (* second on target, first off: -1, a descending run *)
    rewrite negative_minus_one.
    pose proof (extendRun_descending targetDiff rest second r) as H.
    destruct (extendRun (compareFn targetDiff) true second rest r) as [more r2].
    cbn [fst] in *. apply targetLast_rev.
    cbn [targetLast] in *. rewrite Ef. exact H.
  - (* first on target, second off: 1, an ascending run *)
    rewrite negative_one.
    pose proof (extendRun_ascending targetDiff rest second r) as H.
    destruct (extendRun (compareFn targetDiff) false second rest r) as [more r2].
    cbn [fst targetFirst] in *. rewrite Ef. exact H.
  - (* both off target *)
    destruct (negative (sub (r 0) js_0_5)).
    + pose proof (extendRun_descending targetDiff rest second (fun n => r (S n))) as H.
      destruct (extendRun (compareFn targetDiff) true second rest _) as [more r2].
      cbn [fst] in *. apply targetLast_rev.
      cbn [targetLast] in *. rewrite Ef. exact H.
    + pose proof (extendRun_ascending targetDiff rest second (fun n => r (S n))) as H.
      destruct (extendRun (compareFn targetDiff) false second rest _) as [more r2].
      cbn [fst targetFirst forallb] in *. rewrite Ef. rewrite Es in *.
      cbn [negb andb]. exact H.
Qed.

(** On-target questions first, as two blocks. *)
Lemma targetFirst_blocks (targetDiff : string) (l : list Question) :
  targetFirst targetDiff l = true <->
  exists ms ns,
    l = ms ++ ns /\
    forallb (onTarget targetDiff) ms = true /\
    forallb (fun q => negb (onTarget targetDiff q)) ns = true.
Proof.
  split.
  - induction l as [|q l IH]; intros H.
    + exists [], []. repeat split.
    + cbn [targetFirst] in H. destruct (onTarget targetDiff q) eqn:Eq.
      * destruct (IH H) as (ms & ns & -> & Hm & Hn).
        exists (q :: ms), ns. cbn [forallb app]. rewrite Eq, Hm. repeat split.
        exact Hn.
      * exists [], (q :: l). cbn [forallb app]. rewrite Eq, H. repeat split.
  - intros (ms & ns & -> & Hm & Hn).
    induction ms as [|m ms IH]; cbn [app targetFirst forallb] in *.
    + destruct ns as [|n ns]; [reflexivity|].
      cbn [targetFirst forallb] in *.
      apply andb_true_iff in Hn as [Hn1 Hn2].
      apply negb_true_iff in Hn1. rewrite Hn1. exact Hn2.
    + apply andb_true_iff in Hm as [Hm1 Hm2]. rewrite Hm1. apply IH. exact Hm2.
Qed.

Lemma nth_error_blocks (targetDiff : string) (ms ns : list Question)
    (mid : nat) (x : Question) :
  forallb (onTarget targetDiff) ms = true ->
  forallb (fun q => negb (onTarget targetDiff q)) ns = true ->
  nth_error (ms ++ ns) mid = Some x ->
  (onTarget targetDiff x = true -> mid < List.length ms) /\
  (onTarget targetDiff x = false -> List.length ms <= mid).
Proof.
  intros Hm Hn Hx. split; intros Hon.
  - destruct (Nat.lt_ge_cases mid (List.length ms)) as [|Hge]; [assumption|].
    rewrite nth_error_app2 in Hx by exact Hge.
    apply nth_error_In in Hx. rewrite forallb_forall in Hn.
    specialize (Hn x Hx). rewrite Hon in Hn. discriminate.
  - destruct (Nat.lt_ge_cases mid (List.length ms)) as [Hlt|]; [|assumption].
    rewrite nth_error_app1 in Hx by exact Hlt.
    apply nth_error_In in Hx. rewrite forallb_forall in Hm.
    specialize (Hm x Hx). congruence.
Qed.

(** An on-target pivot is placed among the on-target block or right
    behind it: against a question off the target the comparator says -1
    and the search goes left. *)
Lemma searchLeft_onTarget (targetDiff : string) (pivot : Question)
    (ms ns : list Question) (fuel : nat) :
  onTarget targetDiff pivot = true ->
  forallb (onTarget targetDiff) ms = true ->
  forallb (fun q => negb (onTarget targetDiff q)) ns = true ->
  forall (left right : nat) (r : RandomSource),
    left <= List.length ms ->
    fst (searchLeft (compareFn targetDiff) fuel pivot (ms ++ ns) left right r)
      <= List.length ms.
Proof.
  intros Hp Hm Hn.
  induction fuel as [|fuel IH]; intros left right r Hl; [exact Hl|].
  rewrite searchLeft_step.
  destruct (left <? right); [|exact Hl].
  destruct (nth_error (ms ++ ns) (left + (right - left) / 2)) as [x|] eqn:Ex;
    [|exact Hl].
  destruct (nth_error_blocks targetDiff ms ns _ x Hm Hn Ex) as [Hon Hoff].
  rewrite compareFn_cases, Hp.
  destruct (onTarget targetDiff x) eqn:Eox; cbn [andb negb].
  - destruct (negative (sub (r 0) js_0_5)); apply IH; [exact Hl|].
    specialize (Hon eq_refl). lia.
  - rewrite negative_minus_one. apply IH. exact Hl.
Qed.

(** An off-target pivot is placed behind the on-target block: against a
    question on the target the comparator says 1 and the search goes
    right. *)
Lemma searchLeft_offTarget (targetDiff : string) (pivot : Question)
    (ms ns : list Question) (fuel : nat) :
  onTarget targetDiff pivot = false ->
  forallb (onTarget targetDiff) ms = true ->
  forallb (fun q => negb (onTarget targetDiff q)) ns = true ->
  forall (left right : nat) (r : RandomSource),
    right - left <= fuel ->
    left <= right ->
    right <= List.length (ms ++ ns) ->
    List.length ms <= right ->
    List.length ms <=
      fst (searchLeft (compareFn targetDiff) fuel pivot (ms ++ ns) left right r).
Proof.
  intros Hp Hm Hn.
  induction fuel as [|fuel IH]; intros left right r Hf Hlr Hr Hms.
  - cbn. lia.
  - rewrite searchLeft_step.
    destruct (left <? right) eqn:E; [|apply Nat.ltb_ge in E; cbn; lia].
    apply Nat.ltb_lt in E. destruct (half_below left right E) as [H1 H2].
    destruct (nth_error (ms ++ ns) (left + (right - left) / 2)) as [x|] eqn:Ex.
    + destruct (nth_error_blocks targetDiff ms ns _ x Hm Hn Ex) as [Hon Hoff].
      rewrite compareFn_cases, Hp.
      destruct (onTarget targetDiff x) eqn:Eox; cbn [andb negb].
      * rewrite negative_one. apply IH; lia.
      * specialize (Hoff eq_refl).
        destruct (negative (sub (r 0) js_0_5)); apply IH; lia.
    + apply nth_error_None in Ex. lia.
Qed.

Lemma insertAt_blocks (targetDiff : string) (pivot : Question)
    (ms ns : list Question) (left : nat) :
  forallb (onTarget targetDiff) ms = true ->
  forallb (fun q => negb (onTarget targetDiff q)) ns = true ->
  (if onTarget targetDiff pivot
   then left <= List.length ms else List.length ms <= left) ->
  targetFirst targetDiff (insertAt left pivot (ms ++ ns)) = true.
Proof.
  intros Hm Hn Hleft. apply targetFirst_blocks. unfold insertAt.
  rewrite firstn_app, skipn_app.
  destruct (onTarget targetDiff pivot) eqn:Ep.
  - exists (firstn left ms ++ pivot :: skipn left ms), ns.
    replace (left - List.length ms) with 0 by lia.
    rewrite firstn_O, skipn_O, app_nil_r, <- app_assoc. cbn [app].
    split; [reflexivity|]. split; [|exact Hn].
    rewrite forallb_app. cbn [forallb]. rewrite Ep.
    rewrite <- (firstn_skipn left ms), forallb_app in Hm.
    apply andb_true_iff in Hm as [-> ->]. reflexivity.
  - exists ms, (firstn (left - List.length ms) ns ++
                pivot :: skipn (left - List.length ms) ns).
    rewrite firstn_all2, skipn_all2 by lia.
    rewrite <- app_assoc. cbn [app].
    split; [reflexivity|]. split; [exact Hm|].
    rewrite forallb_app. cbn [forallb]. rewrite Ep.
    rewrite <- (firstn_skipn (left - List.length ms) ns), forallb_app in Hn.
    apply andb_true_iff in Hn as [-> ->]. reflexivity.
Qed.

Lemma BinaryInsertionSort_targetFirst (targetDiff : string)
    (todo : list Question) :
  forall (sorted : list Question) (r : RandomSource),
    targetFirst targetDiff sorted = true ->
    targetFirst targetDiff
      (fst (BinaryInsertionSort (compareFn targetDiff) sorted todo r)) = true.
Proof.
  induction todo as [|pivot todo IH]; intros sorted r H; [exact H|].
  rewrite BinaryInsertionSort_cons.
  apply targetFirst_blocks in H as (ms & ns & -> & Hm & Hn).
  pose proof (searchLeft_onTarget targetDiff pivot ms ns
                (List.length (ms ++ ns))) as Hon.
  pose proof (searchLeft_offTarget targetDiff pivot ms ns
                (List.length (ms ++ ns))) as Hoff.
  destruct (onTarget targetDiff pivot) eqn:Ep.
  - specialize (Hon eq_refl Hm Hn 0 (List.length (ms ++ ns)) r (Nat.le_0_l _)).
    destruct (searchLeft _ _ pivot (ms ++ ns) 0 _ r) as [left r1].
    apply IH. apply insertAt_blocks; [exact Hm | exact Hn |].
    rewrite Ep. exact Hon.
  - assert (Hlen : List.length ms <= List.length (ms ++ ns))
      by (rewrite length_app; lia).
    specialize (Hoff eq_refl Hm Hn 0 (List.length (ms ++ ns)) r).
    destruct (searchLeft _ _ pivot (ms ++ ns) 0 _ r) as [left r1].
    apply IH. apply insertAt_blocks; [exact Hm | exact Hn |].
    rewrite Ep. apply Hoff; lia.
Qed.

Lemma reorder_targetFirst (targetDiff : string) (tail : list Question)
    (r : RandomSource) :
  targetFirst targetDiff (fst (reorder targetDiff tail r)) = true.
Proof.
  unfold reorder.
  destruct tail as [|first [|second rest]].
  - reflexivity.
  - cbn. destruct (onTarget targetDiff first); reflexivity.
  - rewrite Array_sort_eq.
    pose proof (CountAndMakeRun_targetFirst targetDiff first second rest r) as H.
    destruct (CountAndMakeRun (compareFn targetDiff) first second rest r)
      as [found r1].
    cbn [fst] in H. apply BinaryInsertionSort_targetFirst. exact H.
Qed.

Lemma targetFirst_before (targetDiff : string) (l : list Question) :
  targetFirst targetDiff l = true ->
  forall i j qi qj,
    nth_error l i = Some qi -> nth_error l j = Some qj ->
    onTarget targetDiff qi = true -> onTarget targetDiff qj = false ->
    i < j.
Proof.
  induction l as [|q l IH]; intros H i j qi qj Hi Hj Ti Tj.
  - destruct i; discriminate.
  - cbn [targetFirst] in H. destruct (onTarget targetDiff q) eqn:Eq.
    + destruct i as [|i], j as [|j]; cbn in Hi, Hj.
      * congruence.
      * lia.
      * congruence.
      * apply -> Nat.succ_lt_mono. eapply IH; eauto.
    + destruct i as [|i]; cbn in Hi.
      * congruence.
      * apply nth_error_In in Hi.
        rewrite forallb_forall in H. specialize (H _ Hi).
        rewrite Ti in H. discriminate.
Qed.

(** C2.  For every tail, every target difficulty and every future of
    [Math.random]: in the reordered sequence every question whose
    difficulty equals the target stands before every question whose
    difficulty differs from it. *)
Theorem reorder_target_first (targetDiff : string) (tail : list Question)
    (r : RandomSource) (i j : nat) (qi qj : Question) :
  nth_error (fst (reorder targetDiff tail r)) i = Some qi ->
  nth_error (fst (reorder targetDiff tail r)) j = Some qj ->
  difficultyLevel qi = targetDiff ->
  difficultyLevel qj <> targetDiff ->
  i < j.
Proof.
  intros Hi Hj Ti Tj.
  apply (targetFirst_before targetDiff (fst (reorder targetDiff tail r)))
    with (qi := qi) (qj := qj); try assumption.
  - apply reorder_targetFirst.
  - unfold onTarget. apply String.eqb_eq. exact Ti.
  - unfold onTarget. apply String.eqb_neq. exact Tj.
Qed.

Lemma reorder_target_first_witness :
  (nth_error (fst (reorder "hard" [capitalQ; planetQ; primeQ] (fun _ => js_0_7))) 0
     = Some primeQ /\
   nth_error (fst (reorder "hard" [capitalQ; planetQ; primeQ] (fun _ => js_0_7))) 1
     = Some capitalQ /\
   difficultyLevel primeQ = "hard"%string /\
   difficultyLevel capitalQ <> "hard"%string) /\
  0 < 1.
Proof.
  assert (H0 : nth_error
                 (fst (reorder "hard" [capitalQ; planetQ; primeQ] (fun _ => js_0_7))) 0
               = Some primeQ) by reflexivity.
  assert (H1 : nth_error
                 (fst (reorder "hard" [capitalQ; planetQ; primeQ] (fun _ => js_0_7))) 1
               = Some capitalQ) by reflexivity.
  assert (D0 : difficultyLevel primeQ = "hard"%string) by reflexivity.
  assert (D1 : difficultyLevel capitalQ <> "hard"%string) by discriminate.
  split; [repeat split; assumption|].
  exact (reorder_target_first "hard" [capitalQ; planetQ; primeQ]
           (fun _ => js_0_7) 0 1 primeQ capitalQ H0 H1 D0 D1).
Defined.

(** ** C8: the head of the batch is never touched *)

Lemma adapt_shape (qi cc : nat) (w : World) :
  exists sorted r,
    adapt qi cc w =
    set_random r
      (with_quiz (set_allQuestions (firstn qi (allQuestions (quiz w)) ++ sorted)) w)
    /\ Permutation sorted (skipn qi (allQuestions (quiz w))).
Proof.
  unfold adapt.
  pose proof (Array_sort_perm _
                (compareFn (calculateDificultyLevel (div (of_nat cc) (of_nat qi))))
                (skipn qi (allQuestions (quiz w))) (random w)) as HP.
  unfold reorder.
  destruct (Array_sort _ _ _) as [sorted r]. cbn [fst] in HP.
  exists sorted, r. split; [reflexivity | exact HP].
Qed.

Lemma head_of_rebuilt (qi : nat) (qs sorted : list Question) :
  Permutation sorted (skipn qi qs) ->
  firstn qi (firstn qi qs ++ sorted) = firstn qi qs /\
  List.length (firstn qi qs ++ sorted) = List.length qs.
Proof.
  intros HP. split.
  - rewrite firstn_app, firstn_firstn, Nat.min_id, length_firstn.
    destruct (Nat.le_gt_cases qi (List.length qs)) as [Hle|Hgt].
    + rewrite Nat.min_l by exact Hle. rewrite Nat.sub_diag.
      cbn. apply app_nil_r.
    + rewrite skipn_all2 in HP by lia.
      apply Permutation_sym, Permutation_nil in HP. subst sorted.
      rewrite firstn_nil. apply app_nil_r.
  - rewrite length_app, (Permutation_length HP), <- length_app, firstn_skipn.
    reflexivity.
Qed.

(** C8.  Every reordering step ([adapt] at position [p], for any [p])
    leaves the questions at indices [0 .. p-1] exactly as they were and
    keeps the length of the batch; consequently a whole resumption of
    the generator, which reorders behind the incremented [qIndex], keeps
    the length and the head up to and including the question just
    answered. *)
Theorem reordering_preserves_head :
  (forall (p cc : nat) (w : World),
      firstn p (allQuestions (quiz (adapt p cc w))) =
        firstn p (allQuestions (quiz w)) /\
      List.length (allQuestions (quiz (adapt p cc w))) =
        List.length (allQuestions (quiz w))) /\
  (forall (sent : option string) (w : World),
      List.length (allQuestions (quiz (worldOf (gen_next sent w)))) =
        List.length (allQuestions (quiz w)) /\
      match qGen (quiz w) with
      | Some g =>
          firstn (S (qIndex g)) (allQuestions (quiz (worldOf (gen_next sent w)))) =
          firstn (S (qIndex g)) (allQuestions (quiz w))
      | None => True
      end).
Proof.
  assert (A : forall p cc w,
      firstn p (allQuestions (quiz (adapt p cc w))) =
        firstn p (allQuestions (quiz w)) /\
      List.length (allQuestions (quiz (adapt p cc w))) =
        List.length (allQuestions (quiz w))).
  { intros p cc w.
    destruct (adapt_shape p cc w) as (sorted & r & E & HP).
    rewrite E. cbn. apply head_of_rebuilt. exact HP. }
  split; [exact A|].
  intros sent w. unfold gen_next.
  destruct (qGen (quiz w)) as [g|]; [|cbn; auto].
  destruct (pc g) as [ |q| ].
  - unfold gen_loop.
    destruct (nth_error (allQuestions (quiz w)) 0); cbn; auto.
  - unfold gen_resume, gen_loop.
    destruct ((S (qIndex g) <? List.length (allQuestions (quiz w)))
              && (0 <? S (qIndex g))).
    + destruct (A (S (qIndex g))
                  (if match sent with
                      | Some playerAnswer => validateAnswer q playerAnswer
                      | None => false
                      end
                   then S (correctCount g) else correctCount g) w) as [Hh Hl].
      destruct (nth_error _ (S (qIndex g))); cbn; auto.
    + destruct (nth_error _ (S (qIndex g))); cbn; auto.
  - cbn. auto.
Qed.

(** ** The generator step *)

(** [gen.next] touches nothing but [allQuestions], the generator object
    and the random stream. *)
Lemma gen_next_frame (sent : option string) (w : World) :
  shown (worldOf (gen_next sent w)) = shown w /\
  nextBtnShown (worldOf (gen_next sent w)) = nextBtnShown w /\
  finishTimers (worldOf (gen_next sent w)) = finishTimers w /\
  today (worldOf (gen_next sent w)) = today w /\
  playerObj (quiz (worldOf (gen_next sent w))) = playerObj (quiz w) /\
  currentQIndex (quiz (worldOf (gen_next sent w))) = currentQIndex (quiz w) /\
  totalScore (quiz (worldOf (gen_next sent w))) = totalScore (quiz w) /\
  quizRunning (quiz (worldOf (gen_next sent w))) = quizRunning (quiz w).
Proof.
  unfold gen_next.
  destruct (qGen (quiz w)) as [g|]; [|cbn; repeat split].
  destruct (pc g) as [ |q| ].
  - unfold gen_loop.
    destruct (nth_error (allQuestions (quiz w)) 0); cbn; repeat split.
  - unfold gen_resume, gen_loop.
    destruct ((S (qIndex g) <? List.length (allQuestions (quiz w)))
              && (0 <? S (qIndex g))).
    + destruct (adapt_shape (S (qIndex g))
                  (if match sent with
                      | Some playerAnswer => validateAnswer q playerAnswer
                      | None => false
                      end
                   then S (correctCount g) else correctCount g) w)
        as (sorted & r & E & _).
      rewrite E.
      destruct (nth_error _ (S (qIndex g))); cbn; repeat split.
    + destruct (nth_error _ (S (qIndex g))); cbn; repeat split.
  - cbn. repeat split.
Qed.

(** Resuming the generator at [yield q] with an answer: it never throws,
    keeps the length of the batch, counts the answer, and suspends at
    the next question when there is one, returning otherwise. *)
Lemma gen_next_at_yield (a : string) (w : World) (g : Generator) (q : Question) :
  qGen (quiz w) = Some g ->
  pc g = SuspendedYield q ->
  exists res w',
    gen_next (Some a) w = Normal res w' /\
    List.length (allQuestions (quiz w')) = List.length (allQuestions (quiz w)) /\
    match nth_error (allQuestions (quiz w')) (S (qIndex g)) with
    | Some q' =>
        res = Yielded q' /\
        qGen (quiz w') =
          Some {| pc := SuspendedYield q'; qIndex := S (qIndex g);
                  correctCount := if validateAnswer q a
                                  then S (correctCount g) else correctCount g |}
    | None =>
        res = Returned (Some "Quiz finished!") /\
        qGen (quiz w') =
          Some {| pc := Completed; qIndex := S (qIndex g);
                  correctCount := if validateAnswer q a
                                  then S (correctCount g) else correctCount g |}
    end.
Proof.
  intros Hg Hpc. unfold gen_next. rewrite Hg, Hpc.
  unfold gen_resume.
  set (cc := if validateAnswer q a then S (correctCount g) else correctCount g).
  set (w1 := if (S (qIndex g) <? List.length (allQuestions (quiz w)))
                && (0 <? S (qIndex g))
             then adapt (S (qIndex g)) cc w else w).
  assert (Hlen : List.length (allQuestions (quiz w1)) =
                 List.length (allQuestions (quiz w))).
  { subst w1.
    destruct ((S (qIndex g) <? List.length (allQuestions (quiz w)))
              && (0 <? S (qIndex g))); [|reflexivity].
    destruct (adapt_shape (S (qIndex g)) cc w) as (sorted & r & E & HP).
    rewrite E. fields. apply (proj2 (head_of_rebuilt _ _ _ HP)). }
  unfold gen_loop.
  destruct (nth_error (allQuestions (quiz w1)) (S (qIndex g))) as [q'|] eqn:En.
  - eexists _, _. split; [reflexivity|]. fields.
    split; [exact Hlen|]. rewrite En. split; reflexivity.
  - eexists _, _. split; [reflexivity|]. fields.
    split; [exact Hlen|]. rewrite En. split; reflexivity.
Qed.

(** ** One answer *)

(** [selectAnswer] on a quiz that waits for an answer at position [k]:
    it does not throw, shows the feedback, credits a right answer in
    both counters, and either offers the next button (the generator
    waits at the next question) or arms the finishing timer (the
    generator has returned). *)
Lemma selectAnswer_awaiting (a : string) (k : nat) (w : World) (q : Question) :
  awaiting k w ->
  nth_error (allQuestions (quiz w)) k = Some q ->
  exists w',
    selectAnswer a w = Normal tt w' /\
    shown w' = shown w ++ [FeedbackShown q a (validateAnswer q a)] /\
    totalScore (quiz w') =
      (if validateAnswer q a then S (totalScore (quiz w)) else totalScore (quiz w)) /\
    quizRunning (quiz w') = true /\
    currentQIndex (quiz w') = k /\
    today w' = today w /\
    allScores (playerObj (quiz w')) = allScores (playerObj (quiz w)) /\
    List.length (allQuestions (quiz w')) = List.length (allQuestions (quiz w)) /\
    match nth_error (allQuestions (quiz w')) (S k) with
    | Some q' =>
        qGen (quiz w') =
          Some {| pc := SuspendedYield q'; qIndex := S k;
                  correctCount := totalScore (quiz w') |} /\
        nextBtnShown w' = true /\
        finishTimers w' = finishTimers w
    | None =>
        qGen (quiz w') =
          Some {| pc := Completed; qIndex := S k;
                  correctCount := totalScore (quiz w') |} /\
        nextBtnShown w' = false /\
        finishTimers w' = S (finishTimers w)
    end.
Proof.
  intros (Hrun & Hcur & Hbtn & q0 & Hq0 & Hgen) Hq.
  assert (q0 = q) by congruence. subst q0.
  unfold selectAnswer. rewrite Hrun, Hcur, Hq. cbn [negb].
  set (v := validateAnswer q a).
  set (w2 := show (FeedbackShown q a v)
               (if v then with_quiz creditAnswer w else w)).
  assert (G2 : qGen (quiz w2) =
               Some {| pc := SuspendedYield q; qIndex := k;
                       correctCount := totalScore (quiz w) |})
    by (subst w2; destruct v; fields; exact Hgen).
  assert (Q2 : allQuestions (quiz w2) = allQuestions (quiz w))
    by (subst w2; destruct v; reflexivity).
  assert (S2 : shown w2 = shown w ++ [FeedbackShown q a v])
    by (subst w2; destruct v; reflexivity).
  assert (T2 : totalScore (quiz w2) =
               if v then S (totalScore (quiz w)) else totalScore (quiz w))
    by (subst w2; destruct v; reflexivity).
  assert (R2 : quizRunning (quiz w2) = true)
    by (subst w2; destruct v; fields; exact Hrun).
  assert (C2 : currentQIndex (quiz w2) = k)
    by (subst w2; destruct v; fields; exact Hcur).
  assert (D2 : today w2 = today w)
    by (subst w2; destruct v; reflexivity).
  assert (P2 : allScores (playerObj (quiz w2)) = allScores (playerObj (quiz w)))
    by (subst w2; destruct v; reflexivity).
  assert (B2 : nextBtnShown w2 = false)
    by (subst w2; destruct v; fields; exact Hbtn).
  assert (F2 : finishTimers w2 = finishTimers w)
    by (subst w2; destruct v; reflexivity).
  destruct (gen_next_at_yield a w2 _ q G2 eq_refl) as (res & w3 & E & Hlen & Hnext).
  pose proof (gen_next_frame (Some a) w2) as Fr.
  rewrite E in Fr. cbn [worldOf] in Fr.
  destruct Fr as (Fsh & Fbtn & Ftm & Ftd & Fpl & Fcur & Ftot & Frun).
  rewrite E. fields in Hnext. fold v in Hnext.
  destruct (nth_error (allQuestions (quiz w3)) (S k)) as [q'|] eqn:En;
    destruct Hnext as [-> Hg3]; cbn [done negb].
  - eexists. split; [reflexivity|]. fields.
    rewrite En, Fsh, Ftot, Frun, Fcur, Ftd, Fpl, Hlen, Ftm, S2, T2, R2, C2, D2, P2, Q2, F2, Hg3.
    repeat split.
  - eexists. split; [reflexivity|]. fields.
    rewrite En, Fsh, Ftot, Frun, Fcur, Ftd, Fpl, Hlen, Ftm, Fbtn, S2, T2, R2, C2, D2, P2, Q2, F2, B2, Hg3.
    repeat split.
Qed.

(** One answer and the advance after it, on a quiz that waits at
    position [k]: either the quiz now waits at position [k + 1], or [k]
    was the last position and the quiz is finished with one attempt
    recorded. *)
Lemma submitAnswer_awaiting (a : string) (k : nat) (w : World) (q : Question) :
  awaiting k w ->
  nth_error (allQuestions (quiz w)) k = Some q ->
  let n := List.length (allQuestions (quiz w)) in
  let tot := if validateAnswer q a
             then S (totalScore (quiz w)) else totalScore (quiz w) in
  let w' := submitAnswer a w in
  totalScore (quiz w') = tot /\
  genCorrectCount w' = Some tot /\
  genCorrectCount (worldOf (selectAnswer a w)) =
    Some (totalScore (quiz (worldOf (selectAnswer a w)))) /\
  List.length (allQuestions (quiz w')) = n /\
  finishTimers w' = finishTimers w /\
  today w' = today w /\
  ((S k < n /\ awaiting (S k) w' /\
    (exists q', shown w' =
       shown w ++ [FeedbackShown q a (validateAnswer q a);
                   QuestionShown q' (S k) tot]) /\
    allScores (playerObj (quiz w')) = allScores (playerObj (quiz w)))
   \/
   (S k = n /\ quizRunning (quiz w') = false /\
    shown w' =
      shown w ++ [FeedbackShown q a (validateAnswer q a);
                  ResultShown tot n (percentOf tot n)] /\
    allScores (playerObj (quiz w')) =
      allScores (playerObj (quiz w)) ++
      [ {| score := tot; total := n; percentage := percentOf tot n;
           timestamp := today w |} ])).
Proof.
  intros Haw Hq n tot w'.
  destruct (selectAnswer_awaiting a k w q Haw Hq)
    as (ws & E & Hsh & Htot & Hrun & Hcur & Htd & Hpl & Hlen & Hnext).
  subst w'. unfold submitAnswer. rewrite E. cbn [worldOf].
  fold tot in Htot. unfold genCorrectCount, advance.
  assert (Hk : k < n) by (apply nth_error_Some; congruence).
  destruct (nth_error (allQuestions (quiz ws)) (S k)) as [q'|] eqn:En.
  - destruct Hnext as (Hg & Hbtn & Htm).
    assert (HSk : S k < n).
    { subst n. rewrite <- Hlen. apply nth_error_Some. congruence. }
    rewrite Hbtn. unfold moveToNextQ, displayCurrentQuestion. fields.
    rewrite Hcur, En. fields.
    rewrite Hg, Htot, Hlen, Htm, Htd, Hsh, Hpl. cbn [option_map correctCount].
    repeat split.
    left. split; [exact HSk|]. split; [|split].
    + unfold awaiting. fields. rewrite Hrun, Hcur, Hg, Htot.
      repeat split. exists q'. split; [exact En | reflexivity].
    + exists q'. rewrite <- app_assoc. reflexivity.
    + reflexivity.
  - destruct Hnext as (Hg & Hbtn & Htm).
    assert (HSk : S k = n).
    { apply nth_error_None in En. subst n. lia. }
    rewrite Hbtn. unfold fireTimer. rewrite Htm. unfold finishQuiz. fields.
    rewrite Hg, Htot, Hlen, Htd, Hsh, Hpl. cbn [option_map correctCount].
    repeat split.
    right. split; [exact HSk|]. split; [reflexivity|]. split.
    + rewrite <- app_assoc. reflexivity.
    + reflexivity.
Qed.

(** ** Whole runs *)

(** [start] on a non-empty batch: the first question is on display and
    the quiz waits for its answer. *)
Lemma start_nonempty (q0 : Question) (rest : list Question) (w0 : World) :
  exists w1,
    start (q0 :: rest) w0 = Normal tt w1 /\
    awaiting 0 w1 /\
    allQuestions (quiz w1) = q0 :: rest /\
    totalScore (quiz w1) = 0 /\
    shown w1 = shown w0 ++ [QuestionShown q0 0 0] /\
    finishTimers w1 = finishTimers w0 /\
    today w1 = today w0 /\
    allScores (playerObj (quiz w1)) = allScores (playerObj (quiz w0)).
Proof.
  eexists. split; [reflexivity|].
  unfold awaiting. fields. repeat split.
  exists q0. split; reflexivity.
Qed.

Lemma play_cons (a : string) (rest : list string) (w : World) :
  play (a :: rest) w = play rest (submitAnswer a w).
Proof. reflexivity. Qed.

(** Playing the remaining answers, one per remaining question, from a
    quiz that waits at position [k]: the quiz ends finished, with exactly
    one completion shown and one attempt recorded, both carrying the
    number of right answers and the size of the batch. *)
Lemma play_awaiting (answers : list string) :
  forall (k : nat) (w : World),
    awaiting k w ->
    k + List.length answers = List.length (allQuestions (quiz w)) ->
    answers <> [] ->
    quizRunning (quiz (play answers w)) = false /\
    finishTimers (play answers w) = finishTimers w /\
    exists new e,
      shown (play answers w) = shown w ++ new /\
      countComplete new = 1 /\
      countAnswers new = List.length answers /\
      score e = totalScore (quiz w) + countRight new /\
      total e = List.length (allQuestions (quiz w)) /\
      (forall s t p, In (ResultShown s t p) new -> s = score e /\ t = total e) /\
      allScores (playerObj (quiz (play answers w))) =
        allScores (playerObj (quiz w)) ++ [e].
Proof.
  induction answers as [|a rest IH]; intros k w Haw Hlen Hne; [congruence|].
  assert (Hq : exists q, nth_error (allQuestions (quiz w)) k = Some q).
  { destruct Haw as (_ & _ & _ & q & Hq & _). exists q. exact Hq. }
  destruct Hq as [q Hq].
  destruct (submitAnswer_awaiting a k w q Haw Hq)
    as (Htot & _ & _ & Hn & Htm & Htd & Hcase).
  rewrite play_cons. cbn [List.length] in Hlen.
  destruct Hcase as [(HSk & Haw' & (q' & Hsh) & Hpl) | (HSk & Hrun & Hsh & Hpl)].
  - assert (Hne' : rest <> []).
    { intros ->. cbn in Hlen. lia. }
    destruct (IH (S k) (submitAnswer a w) Haw') as (Hr & Ht & new & e & H1 & H2 & H3 & H4 & H5 & H6 & H7).
    { rewrite Hn. lia. }
    { exact Hne'. }
    split; [exact Hr|]. split; [congruence|].
    exists ([FeedbackShown q a (validateAnswer q a);
             QuestionShown q' (S k)
               (if validateAnswer q a
                then S (totalScore (quiz w)) else totalScore (quiz w))] ++ new), e.
    split; [rewrite H1, Hsh, <- app_assoc; reflexivity|].
    split; [exact H2|].
    split; [cbn [countAnswers app List.length]; rewrite H3; reflexivity|].
    split; [rewrite H4, Htot; cbn [countRight app]; destruct (validateAnswer q a); lia|].
    split; [congruence|].
    split; [|congruence].
    intros s t p [Hin|[Hin|Hin]]; try discriminate. apply (H6 s t p Hin).
  - assert (rest = []) as -> by (destruct rest; [reflexivity | cbn in Hlen; lia]).
    cbn [play fold_left].
    split; [exact Hrun|]. split; [exact Htm|].
    set (n := List.length (allQuestions (quiz w))) in *.
    set (tot := if validateAnswer q a
                then S (totalScore (quiz w)) else totalScore (quiz w)) in *.
    exists [FeedbackShown q a (validateAnswer q a);
            ResultShown tot n (percentOf tot n)],
           {| score := tot; total := n; percentage := percentOf tot n;
              timestamp := today w |}.
    split; [exact Hsh|].
    split; [reflexivity|]. split; [reflexivity|].
    split; [subst tot; cbn [countRight score];
            destruct (validateAnswer q a); lia|].
    split; [reflexivity|].
    split; [|exact Hpl].
    intros s t p [Hin|[Hin|[]]]; [discriminate|].
    inversion Hin; subst. split; reflexivity.
Qed.

(** ** C1: a full run completes exactly once *)

(** C1.  For every non-empty batch [B], every sequence of [len(B)]
    answers and every starting page: [start B] does not throw, and
    after the answers (each followed by the advance) the quiz is
    finished ([quizRunning = false]), the timer armed by the last answer
    has been consumed, exactly one completion has been shown since the
    start, it carries [total = len(B)], and exactly one attempt, with
    [total = len(B)], has been appended to the history. *)
Theorem full_run_completes_once (B : list Question) (answers : list string)
    (w0 : World) :
  B <> [] ->
  List.length answers = List.length B ->
  threw (start B w0) = false /\
  quizRunning (quiz (play answers (worldOf (start B w0)))) = false /\
  finishTimers (play answers (worldOf (start B w0))) = finishTimers w0 /\
  exists new e,
    shown (play answers (worldOf (start B w0))) = shown w0 ++ new /\
    countComplete new = 1 /\
    countAnswers new = List.length B /\
    (forall s t p, In (ResultShown s t p) new -> t = List.length B) /\
    allScores (playerObj (quiz (play answers (worldOf (start B w0))))) =
      allScores (playerObj (quiz w0)) ++ [e] /\
    total e = List.length B.
Proof.
  intros HB Hlen.
  destruct B as [|q0 rest]; [congruence|].
  destruct (start_nonempty q0 rest w0)
    as (w1 & E & Haw & HQ & Htot & Hsh & Ht1 & _ & Hpl).
  rewrite E. cbn [threw worldOf].
  destruct (play_awaiting answers 0 w1 Haw)
    as (Hr & Ht & new & e & H1 & H2 & H3 & H4 & H5 & H6 & H7).
  { rewrite HQ. exact Hlen. }
  { intros ->. discriminate Hlen. }
  split; [reflexivity|]. split; [exact Hr|]. split; [congruence|].
  exists (QuestionShown q0 0 0 :: new), e.
  split; [rewrite H1, Hsh, <- app_assoc; reflexivity|].
  split; [exact H2|].
  split; [cbn [countAnswers]; rewrite H3; exact Hlen|].
  split.
  - intros s t p [Hin|Hin]; [discriminate|].
    destruct (H6 s t p Hin) as [_ ->]. rewrite H5, HQ. reflexivity.
  - split; [congruence|]. rewrite H5, HQ. reflexivity.
Qed.

Lemma full_run_completes_once_witness :
  (sampleBatch <> [] /\
   List.length sampleAnswers = List.length sampleBatch) /\
  quizRunning (quiz (play sampleAnswers (worldOf (start sampleBatch samplePage))))
  = false.
Proof.
  assert (H1 : sampleBatch <> []) by discriminate.
  assert (H2 : List.length sampleAnswers = List.length sampleBatch) by reflexivity.
  split; [split; assumption|].
  exact (proj1 (proj2 (full_run_completes_once
                         sampleBatch sampleAnswers samplePage H1 H2))).
Defined.

(** The spec's scenario, run: after the first right answer the hard
    question leads the tail, and the run ends with score 2 of 3. *)
Example sample_run :
  map difficultyLevel
      (allQuestions (quiz (play ["Paris"] (worldOf (start sampleBatch samplePage)))))
    = ["easy"; "hard"; "medium"] /\
  map (fun e => (score e, total e))
      (allScores (playerObj (quiz (play sampleAnswers
                                     (worldOf (start sampleBatch samplePage))))))
    = [(2, 3)] /\
  countComplete (shown (play sampleAnswers (worldOf (start sampleBatch samplePage))))
    = 1.
Proof. repeat split; vm_compute; reflexivity. Qed.

(** ** C5: the reported score *)












(** ** C10: the two counters *)








(* ================================================================== *)
(** * Further properties of the code *)
(* ================================================================== *)

(** ** Loading *)

Section LoadingFacts.

Variable unescapeHTMLEntities : string -> string.

Lemma buildQuestion_builtFrom (raw : RawQuestion) (r : RandomSource) :
  builtFrom unescapeHTMLEntities raw
    (fst (buildQuestion unescapeHTMLEntities raw r)).
Proof.
  unfold buildQuestion, bind, ret.
  pose proof (Array_sort_perm _ shuffleCompare
                (incorrect_answers raw ++ [correct_answer raw]) r) as HP.
  destruct (Array_sort shuffleCompare _ r) as [shuffled r1].
  cbn [fst] in *. unfold builtFrom. cbn.
  repeat split. apply Permutation_map. exact HP.
Qed.

Lemma mapResults_builtFrom (results : list RawQuestion) :
  forall r, Forall2 (builtFrom unescapeHTMLEntities) results
              (fst (mapResults unescapeHTMLEntities results r)).
Proof.
  induction results as [|raw rest IH]; intros r.
  - constructor.
  - cbn [mapResults]. unfold bind, ret.
    pose proof (buildQuestion_builtFrom raw r) as Hb.
    destruct (buildQuestion unescapeHTMLEntities raw r) as [built r1].
    specialize (IH r1).
    destruct (mapResults unescapeHTMLEntities rest r1) as [others r2].
    cbn [fst] in *. constructor; assumption.
Qed.

Lemma fetch_loaded_questions (results : list RawQuestion) (w : World) :
  allQuestions
    (quiz (snd (fetchQuestionsFromAPI unescapeHTMLEntities
                  (FetchResponse (Some results)) w))) =
  fst (mapResults unescapeHTMLEntities results (random w)).
Proof.
  unfold fetchQuestionsFromAPI.
  destruct (mapResults unescapeHTMLEntities results (random w)) as [qs r].
  reflexivity.
Qed.

(** X1.  When the response carries a [results] array, the questions
    loaded into [allQuestions] correspond one to one, in order, to the
    raw records: each has the unescaped text and correct answer of its
    record, the record's difficulty ("medium" when the record has none),
    and as choices a permutation of the unescaped incorrect answers
    together with the unescaped correct answer. *)
Theorem fetch_builds_each_question (results : list RawQuestion) (w : World) :
  Forall2
    (fun raw q =>
       questionText q = unescapeHTMLEntities (question raw) /\
       correctAns q = unescapeHTMLEntities (correct_answer raw) /\
       difficultyLevel q =
         match difficulty raw with Some d => d | None => "medium" end /\
       Permutation (answerChoices q)
         (map unescapeHTMLEntities
              (incorrect_answers raw ++ [correct_answer raw])))
    results
    (allQuestions
       (quiz (snd (fetchQuestionsFromAPI unescapeHTMLEntities
                     (FetchResponse (Some results)) w)))).
Proof.
  rewrite fetch_loaded_questions. apply mapResults_builtFrom.
Qed.

(** X2.  Every question loaded by [fetchQuestionsFromAPI] offers its
    correct answer among its choices, and selecting that choice
    validates. *)
Theorem fetch_correct_answer_is_a_choice (results : list RawQuestion)
    (w : World) :
  Forall
    (fun q => In (correctAns q) (answerChoices q) /\
              validateAnswer q (correctAns q) = true)
    (allQuestions
       (quiz (snd (fetchQuestionsFromAPI unescapeHTMLEntities
                     (FetchResponse (Some results)) w)))).
Proof.
  rewrite fetch_loaded_questions.
  pose proof (mapResults_builtFrom results (random w)) as H.
  induction H as [|raw q raws qs Hb _ IH]; constructor; [|exact IH].
  destruct Hb as (_ & Hc & _ & HP). split.
  - apply (Permutation_in _ (Permutation_sym HP)).
    rewrite Hc. apply in_map, in_or_app. right. left. reflexivity.
  - unfold validateAnswer. apply String.eqb_refl.
Qed.

End LoadingFacts.

(** ** What any page action keeps *)

Lemma resultsShown_app (l l' : list Shown) :
  resultsShown (l ++ l') = resultsShown l ++ resultsShown l'.
Proof.
  induction l as [|[q i s|q a b|s t p| | |m] l IH]; cbn [app resultsShown];
    rewrite ?IH; reflexivity.
Qed.

Lemma questionsShown_app (l l' : list Shown) :
  questionsShown (l ++ l') = questionsShown l ++ questionsShown l'.
Proof.
  induction l as [|[q i s|q a b|s t p| | |m] l IH]; cbn [app questionsShown];
    rewrite ?IH; reflexivity.
Qed.

Lemma grows_refl (w : World) : grows w w.
Proof.
  exists [], []. rewrite !app_nil_r. repeat split.
Qed.

Lemma grows_trans (w1 w2 w3 : World) :
  grows w1 w2 -> grows w2 w3 -> grows w1 w3.
Proof.
  intros (n1 & a1 & S1 & P1 & U1 & M1) (n2 & a2 & S2 & P2 & U2 & M2).
  exists (n1 ++ n2), (a1 ++ a2).
  rewrite S2, S1, P2, P1, U2, U1, map_app, resultsShown_app, M1, M2, !app_assoc.
  repeat split.
Qed.

(** A step that leaves document and player alone. *)
Lemma grows_same (w w' : World) :
  shown w' = shown w ->
  allScores (playerObj (quiz w')) = allScores (playerObj (quiz w)) ->
  username (playerObj (quiz w')) = username (playerObj (quiz w)) ->
  grows w w'.
Proof.
  intros Hs Hp Hu. exists [], []. rewrite Hs, Hp, Hu, !app_nil_r. repeat split.
Qed.

Lemma grows_finishQuiz (w : World) : grows w (finishQuiz w).
Proof.
  unfold finishQuiz.
  eexists [_], [_]. fields. repeat split.
Qed.

Lemma grows_display (w : World) : grows w (displayCurrentQuestion w).
Proof.
  unfold displayCurrentQuestion.
  destruct (nth_error (allQuestions (quiz w)) (currentQIndex (quiz w))) as [q|].
  - eexists [_], []. fields. rewrite app_nil_r. repeat split.
  - apply grows_finishQuiz.
Qed.

Lemma grows_gen_next (sent : option string) (w : World) :
  grows w (worldOf (gen_next sent w)).
Proof.
  destruct (gen_next_frame sent w) as (Fsh & _ & _ & _ & Fpl & _).
  apply grows_same; congruence.
Qed.

Lemma grows_selectAnswer (a : string) (w : World) :
  grows w (worldOf (selectAnswer a w)).
Proof.
  unfold selectAnswer.
  destruct (quizRunning (quiz w)); cbn [negb]; [|apply grows_refl].
  destruct (nth_error (allQuestions (quiz w)) (currentQIndex (quiz w))) as [q|];
    [|apply grows_refl].
  set (v := validateAnswer q a).
  set (w2 := show (FeedbackShown q a v)
               (if v then with_quiz creditAnswer w else w)).
  assert (G2 : grows w w2).
  { exists [FeedbackShown q a v], [].
    subst w2. destruct v; fields; rewrite app_nil_r; repeat split. }
  pose proof (grows_gen_next (Some a) w2) as G3.
  destruct (gen_next (Some a) w2) as [res w3|w3]; cbn [worldOf] in *.
  - apply (grows_trans _ _ _ G2). apply (grows_trans _ _ _ G3).
    destruct (done res); cbn [negb]; apply grows_same; reflexivity.
  - apply (grows_trans _ _ _ G2 G3).
Qed.

Lemma grows_moveToNextQ (w : World) : grows w (moveToNextQ w).
Proof.
  unfold moveToNextQ.
  eapply grows_trans; [|apply grows_display].
  apply grows_same; reflexivity.
Qed.

Lemma grows_fireTimer (w : World) : grows w (fireTimer w).
Proof.
  unfold fireTimer. destruct (finishTimers w); [apply grows_refl|].
  eapply grows_trans; [|apply grows_finishQuiz].
  apply grows_same; reflexivity.
Qed.

Lemma grows_initializeQuiz (w : World) : grows w (worldOf (initializeQuiz w)).
Proof.
  unfold initializeQuiz.
  set (w1 := with_quiz _ w).
  assert (G1 : grows w w1) by (apply grows_same; reflexivity).
  pose proof (grows_gen_next None w1) as G2.
  destruct (gen_next None w1) as [res w2|w2]; cbn [worldOf] in *.
  - apply (grows_trans _ _ _ G1). apply (grows_trans _ _ _ G2).
    destruct (done res); cbn [negb]; [apply grows_refl | apply grows_display].
  - apply (grows_trans _ _ _ G1 G2).
Qed.

Section ActionFacts.

Variable unescapeHTMLEntities : string -> string.

Lemma grows_fetch (outcome : FetchOutcome) (w : World) :
  grows w (snd (fetchQuestionsFromAPI unescapeHTMLEntities outcome w)).
Proof.
  unfold fetchQuestionsFromAPI.
  destruct outcome as [|[results|]]; try apply grows_refl.
  destruct (mapResults unescapeHTMLEntities results (random w)) as [qs r].
  apply grows_same; reflexivity.
Qed.

Lemma grows_show (e : Shown) (w : World) :
  resultsShown [e] = [] -> grows w (show e w).
Proof.
  intros He. exists [e], []. fields. rewrite app_nil_r, He. repeat split.
Qed.

Lemma grows_restart (outcome : FetchOutcome) (w : World) :
  grows w (worldOf (restartQuizFetching unescapeHTMLEntities outcome w)).
Proof.
  unfold restartQuizFetching.
  assert (G0 : grows w (show LoadingPanelShown w))
    by (apply grows_show; reflexivity).
  pose proof (grows_fetch outcome (show LoadingPanelShown w)) as G1.
  destruct (fetchQuestionsFromAPI unescapeHTMLEntities outcome
              (show LoadingPanelShown w)) as [loaded w1].
  cbn [snd] in G1.
  apply (grows_trans _ _ _ G0). apply (grows_trans _ _ _ G1).
  destruct (truthy loaded); cbn [worldOf].
  - eapply grows_trans; [|apply grows_initializeQuiz].
    eapply grows_trans; [|apply grows_show; reflexivity].
    apply grows_same; reflexivity.
  - apply grows_show. reflexivity.
Qed.

Lemma grows_handle (w : World) (act : Action) :
  grows w (handle unescapeHTMLEntities w act).
Proof.
  destruct act; cbn [handle].
  - apply grows_selectAnswer.
  - apply grows_moveToNextQ.
  - apply grows_fireTimer.
  - apply grows_restart.
Qed.

Lemma handleAll_cons (act : Action) (acts : list Action) (w : World) :
  handleAll unescapeHTMLEntities (act :: acts) w =
  handleAll unescapeHTMLEntities acts (handle unescapeHTMLEntities w act).
Proof. reflexivity. Qed.

Lemma handleAll_app (acts acts' : list Action) (w : World) :
  handleAll unescapeHTMLEntities (acts ++ acts') w =
  handleAll unescapeHTMLEntities acts'
    (handleAll unescapeHTMLEntities acts w).
Proof. unfold handleAll. apply fold_left_app. Qed.

Lemma grows_handleAll (acts : list Action) :
  forall w, grows w (handleAll unescapeHTMLEntities acts w).
Proof.
  induction acts as [|act acts IH]; intros w.
  - apply grows_refl.
  - rewrite handleAll_cons.
    eapply grows_trans; [apply grows_handle | apply IH].
Qed.

(** X3.  Whatever the page does - answers, next, timers, restarts, in
    any order and number - the history of attempts only grows and the
    user name stays; the attempts appended are exactly the completions
    the page has shown meanwhile, in the same order and with the same
    score, total and percentage. *)
Theorem history_follows_completions (acts : list Action) (w : World) :
  exists new added,
    shown (handleAll unescapeHTMLEntities acts w) = shown w ++ new /\
    allScores (playerObj (quiz (handleAll unescapeHTMLEntities acts w))) =
      allScores (playerObj (quiz w)) ++ added /\
    username (playerObj (quiz (handleAll unescapeHTMLEntities acts w))) =
      username (playerObj (quiz w)) /\
    map attemptOf added = resultsShown new.
Proof.
  destruct (grows_handleAll acts w) as (new & added & Hs & Hp & Hu & Hm).
  exists new, added. repeat split; assumption.
Qed.

End ActionFacts.

(** ** Single operations, on any page *)

Lemma gen_next_perm (sent : option string) (w : World) :
  Permutation (allQuestions (quiz (worldOf (gen_next sent w))))
              (allQuestions (quiz w)).
Proof.
  unfold gen_next.
  destruct (qGen (quiz w)) as [g|]; [|apply Permutation_refl].
  destruct (pc g) as [ |q| ].
  - unfold gen_loop.
    destruct (nth_error (allQuestions (quiz w)) 0); apply Permutation_refl.
  - unfold gen_resume, gen_loop.
    set (cc := if match sent with
                  | Some playerAnswer => validateAnswer q playerAnswer
                  | None => false
                  end
               then S (correctCount g) else correctCount g).
    destruct ((S (qIndex g) <? List.length (allQuestions (quiz w)))
              && (0 <? S (qIndex g))).
    + destruct (adapt_shape (S (qIndex g)) cc w) as (sorted & r & E & HP).
      rewrite E.
      assert (HQ : Permutation
                     (firstn (S (qIndex g)) (allQuestions (quiz w)) ++ sorted)
                     (allQuestions (quiz w))).
      { apply Permutation_trans
          with (firstn (S (qIndex g)) (allQuestions (quiz w)) ++
                skipn (S (qIndex g)) (allQuestions (quiz w))).
        - apply Permutation_app_head. exact HP.
        - rewrite firstn_skipn. apply Permutation_refl. }
      destruct (nth_error _ (S (qIndex g))); fields; exact HQ.
    + destruct (nth_error _ (S (qIndex g))); apply Permutation_refl.
  - apply Permutation_refl.
Qed.

(** [selectAnswer], whatever the state: the questions are permuted at
    most, the running flag and the position stay, and the two score
    counters of quiz and player move together. *)
Lemma selectAnswer_effect (a : string) (w : World) :
  Permutation (allQuestions (quiz (worldOf (selectAnswer a w))))
              (allQuestions (quiz w)) /\
  quizRunning (quiz (worldOf (selectAnswer a w))) = quizRunning (quiz w) /\
  currentQIndex (quiz (worldOf (selectAnswer a w))) = currentQIndex (quiz w) /\
  recentScore (playerObj (quiz (worldOf (selectAnswer a w)))) + totalScore (quiz w) =
    recentScore (playerObj (quiz w)) + totalScore (quiz (worldOf (selectAnswer a w))).
Proof.
  unfold selectAnswer.
  destruct (quizRunning (quiz w)) eqn:Hrun; cbn [negb];
    [|cbn [worldOf]; rewrite Hrun; repeat split; apply Permutation_refl].
  destruct (nth_error (allQuestions (quiz w)) (currentQIndex (quiz w))) as [q|];
    [|cbn [worldOf]; rewrite Hrun; repeat split; apply Permutation_refl].
  set (v := validateAnswer q a).
  set (w2 := show (FeedbackShown q a v)
               (if v then with_quiz creditAnswer w else w)).
  assert (Q2 : allQuestions (quiz w2) = allQuestions (quiz w))
    by (subst w2; destruct v; reflexivity).
  assert (R2 : quizRunning (quiz w2) = true)
    by (subst w2; destruct v; fields; exact Hrun).
  assert (C2 : currentQIndex (quiz w2) = currentQIndex (quiz w))
    by (subst w2; destruct v; reflexivity).
  assert (S2 : recentScore (playerObj (quiz w2)) + totalScore (quiz w) =
               recentScore (playerObj (quiz w)) + totalScore (quiz w2))
    by (subst w2; destruct v; fields; lia).
  pose proof (gen_next_perm (Some a) w2) as HP.
  destruct (gen_next_frame (Some a) w2) as (_ & _ & _ & _ & Fpl & Fcur & Ftot & Frun).
  destruct (gen_next (Some a) w2) as [res w3|w3]; cbn [worldOf] in *.
  - destruct (done res); cbn [negb]; fields;
      rewrite Fpl, Fcur, Ftot, Frun, R2, C2; rewrite Q2 in HP;
      repeat split; assumption.
  - rewrite Fpl, Fcur, Ftot, Frun, R2, C2. rewrite Q2 in HP.
    repeat split; assumption.
Qed.

(** [moveToNextQ] and the timer never touch the questions, the
    generator or the score counters, and never turn a stopped quiz back
    on. *)
Lemma moveToNextQ_keeps (w : World) :
  allQuestions (quiz (moveToNextQ w)) = allQuestions (quiz w) /\
  qGen (quiz (moveToNextQ w)) = qGen (quiz w) /\
  totalScore (quiz (moveToNextQ w)) = totalScore (quiz w) /\
  recentScore (playerObj (quiz (moveToNextQ w))) = recentScore (playerObj (quiz w)) /\
  (quizRunning (quiz w) = false -> quizRunning (quiz (moveToNextQ w)) = false).
Proof.
  unfold moveToNextQ, displayCurrentQuestion, finishQuiz. fields.
  destruct (nth_error (allQuestions (quiz w)) (S (currentQIndex (quiz w))));
    fields; repeat split; auto.
Qed.

Lemma fireTimer_keeps (w : World) :
  allQuestions (quiz (fireTimer w)) = allQuestions (quiz w) /\
  qGen (quiz (fireTimer w)) = qGen (quiz w) /\
  totalScore (quiz (fireTimer w)) = totalScore (quiz w) /\
  recentScore (playerObj (quiz (fireTimer w))) = recentScore (playerObj (quiz w)) /\
  (quizRunning (quiz w) = false -> quizRunning (quiz (fireTimer w)) = false).
Proof.
  unfold fireTimer, finishQuiz.
  destruct (finishTimers w); fields; repeat split; auto.
Qed.

(** ** Nothing reads the document *)

Lemma docOnly_refl (w : World) : docOnly w w.
Proof. repeat split. Qed.

Lemma docOnly_trans (w1 w2 w3 : World) :
  docOnly w1 w2 -> docOnly w2 w3 -> docOnly w1 w3.
Proof.
  intros (A1 & A2 & A3 & A4 & A5) (B1 & B2 & B3 & B4 & B5).
  repeat split; congruence.
Qed.

Lemma docOnly_show (e : Shown) (w : World) : docOnly (show e w) w.
Proof. repeat split. Qed.

(** Two pages that differ only in the document, taken apart: the same
    fields everywhere else. *)
Ltac same_but_document w w' H :=
  destruct w as [z b t r d s], w' as [z' b' t' r' d' s'];
  unfold docOnly in H; cbn in H;
  destruct H as (? & ? & ? & ? & ?); subst z' b' t' r' d'.

Lemma docOnly_gen_loop (qi cc : nat) (w w' : World) :
  docOnly w w' ->
  fst (gen_loop qi cc w) = fst (gen_loop qi cc w') /\
  docOnly (snd (gen_loop qi cc w)) (snd (gen_loop qi cc w')).
Proof.
  intros H. same_but_document w w' H.
  unfold gen_loop. fields.
  destruct (nth_error (allQuestions z) qi); cbn [fst snd];
    (split; [reflexivity | repeat split]).
Qed.

Lemma docOnly_adapt (qi cc : nat) (w w' : World) :
  docOnly w w' -> docOnly (adapt qi cc w) (adapt qi cc w').
Proof.
  intros H. same_but_document w w' H.
  unfold adapt. fields.
  destruct (reorder _ _ r) as [sorted r1]. repeat split.
Qed.

Lemma docOnly_gen_resume (g : Generator) (q : Question) (sent : option string)
    (w w' : World) :
  docOnly w w' ->
  fst (gen_resume g q sent w) = fst (gen_resume g q sent w') /\
  docOnly (snd (gen_resume g q sent w)) (snd (gen_resume g q sent w')).
Proof.
  intros H. unfold gen_resume.
  assert (Hq : quiz w = quiz w') by apply H.
  rewrite Hq.
  apply docOnly_gen_loop.
  destruct ((S (qIndex g) <? List.length (allQuestions (quiz w'))) &&
            (0 <? S (qIndex g))); [apply docOnly_adapt|]; exact H.
Qed.

Lemma docOnly_gen_next (sent : option string) (w w' : World) :
  docOnly w w' ->
  docOnly (worldOf (gen_next sent w)) (worldOf (gen_next sent w')) /\
  (forall res v, gen_next sent w = Normal res v ->
                 exists v', gen_next sent w' = Normal res v') /\
  (forall v, gen_next sent w = TypeError v ->
             exists v', gen_next sent w' = TypeError v').
Proof.
  intros H. unfold gen_next.
  assert (Hq : quiz w = quiz w') by apply H.
  rewrite Hq.
  destruct (qGen (quiz w')) as [g|].
  2:{ split; [exact H|]. split; intros; [discriminate | eexists; reflexivity]. }
  destruct (pc g) as [|q|].
  - destruct (docOnly_gen_loop 0 0 w w' H) as [F D].
    destruct (gen_loop 0 0 w) as [r1 w1], (gen_loop 0 0 w') as [r1' w1'].
    cbn [fst snd worldOf] in *. subst r1'.
    split; [exact D|]. split; [intros ? ? E | intros ? E]; inversion E; subst.
    eexists; reflexivity.
  - destruct (docOnly_gen_resume g q sent w w' H) as [F D].
    destruct (gen_resume g q sent w) as [r1 w1],
             (gen_resume g q sent w') as [r1' w1'].
    cbn [fst snd worldOf] in *. subst r1'.
    split; [exact D|]. split; [intros ? ? E | intros ? E]; inversion E; subst.
    eexists; reflexivity.
  - split; [exact H|]. split; [intros ? ? E | intros ? E]; inversion E; subst.
    eexists; reflexivity.
Qed.

Lemma docOnly_finishQuiz (w w' : World) :
  docOnly w w' -> docOnly (finishQuiz w) (finishQuiz w').
Proof.
  intros H. same_but_document w w' H.
  unfold finishQuiz. fields. repeat split.
Qed.

Lemma docOnly_display (w w' : World) :
  docOnly w w' ->
  docOnly (displayCurrentQuestion w) (displayCurrentQuestion w').
Proof.
  intros H. unfold displayCurrentQuestion.
  assert (Hq : quiz w = quiz w') by apply H.
  rewrite Hq.
  destruct (nth_error (allQuestions (quiz w')) (currentQIndex (quiz w'))).
  - same_but_document w w' H. repeat split.
  - apply docOnly_finishQuiz. exact H.
Qed.

Lemma docOnly_moveToNextQ (w w' : World) :
  docOnly w w' -> docOnly (moveToNextQ w) (moveToNextQ w').
Proof.
  intros H. unfold moveToNextQ. apply docOnly_display.
  same_but_document w w' H. repeat split.
Qed.

Lemma docOnly_fireTimer (w w' : World) :
  docOnly w w' -> docOnly (fireTimer w) (fireTimer w').
Proof.
  intros H. unfold fireTimer.
  assert (Ht : finishTimers w = finishTimers w') by apply H.
  rewrite Ht. destruct (finishTimers w'); [exact H|].
  apply docOnly_finishQuiz.
  same_but_document w w' H. repeat split.
Qed.

Lemma docOnly_selectAnswer (a : string) (w w' : World) :
  docOnly w w' ->
  docOnly (worldOf (selectAnswer a w)) (worldOf (selectAnswer a w')).
Proof.
  intros H.
  assert (Hq : quiz w = quiz w') by apply H.
  unfold selectAnswer. rewrite Hq.
  destruct (negb (quizRunning (quiz w'))); [exact H|].
  destruct (nth_error (allQuestions (quiz w')) (currentQIndex (quiz w')))
    as [q|]; [|exact H].
  set (v := validateAnswer q a).
  assert (H2 : docOnly
                 (show (FeedbackShown q a v)
                    (if v then with_quiz creditAnswer w else w))
                 (show (FeedbackShown q a v)
                    (if v then with_quiz creditAnswer w' else w'))).
  { same_but_document w w' H. destruct v; repeat split. }
  destruct (docOnly_gen_next (Some a) _ _ H2) as (D & R & T).
  destruct (gen_next (Some a)
              (show (FeedbackShown q a v)
                 (if v then with_quiz creditAnswer w else w)))
    as [res w3|w3] eqn:E.
  - destruct (R res w3 eq_refl) as (w3' & E'). rewrite E' in *.
    cbn [worldOf] in *.
    same_but_document w3 w3' D. destruct (done res); repeat split.
  - destruct (T w3 eq_refl) as (w3' & E'). rewrite E' in *.
    exact D.
Qed.

Lemma docOnly_initializeQuiz (w w' : World) :
  docOnly w w' ->
  docOnly (worldOf (initializeQuiz w)) (worldOf (initializeQuiz w')).
Proof.
  intros H. unfold initializeQuiz.
  set (f := fun z : Quiz => _).
  assert (H1 : docOnly (with_quiz f w) (with_quiz f w')).
  { same_but_document w w' H. repeat split. }
  destruct (docOnly_gen_next None _ _ H1) as (D & R & T).
  destruct (gen_next None (with_quiz f w)) as [res w2|w2] eqn:E.
  - destruct (R res w2 eq_refl) as (w2' & E'). rewrite E' in *.
    cbn [worldOf] in *.
    destruct (done res); cbn [negb]; [exact D | apply docOnly_display; exact D].
  - destruct (T w2 eq_refl) as (w2' & E'). rewrite E' in *.
    exact D.
Qed.

Section RestartFacts.

Variable unescapeHTMLEntities : string -> string.

(** A restart whose load succeeds is [start] on the loaded questions,
    after the two switches of panels. *)
Lemma restart_is_start (results : list RawQuestion) (w : World) :
  restartQuizFetching unescapeHTMLEntities (FetchResponse (Some results)) w =
  start (fst (mapResults unescapeHTMLEntities results (random w)))
        (show QuizPanelShown
           (show LoadingPanelShown
              (set_random
                 (snd (mapResults unescapeHTMLEntities results (random w))) w))).
Proof.
  unfold restartQuizFetching, fetchQuestionsFromAPI, start, restartQuiz.
  fields.
  destruct (mapResults unescapeHTMLEntities results (random w)) as [qs r].
  reflexivity.
Qed.

Lemma mapResults_length (results : list RawQuestion) (r : RandomSource) :
  List.length (fst (mapResults unescapeHTMLEntities results r)) =
  List.length results.
Proof.
  symmetry. eapply Forall2_length. apply mapResults_builtFrom.
Qed.

Lemma restart_success_effect (results : list RawQuestion) (w : World) :
  let c := restartQuizFetching unescapeHTMLEntities
             (FetchResponse (Some results)) w in
  threw c = false /\
  quizRunning (quiz (worldOf c)) = true /\
  currentQIndex (quiz (worldOf c)) = 0 /\
  totalScore (quiz (worldOf c)) = 0 /\
  recentScore (playerObj (quiz (worldOf c))) = 0 /\
  genCorrectCount (worldOf c) = Some 0 /\
  allScores (playerObj (quiz (worldOf c))) = allScores (playerObj (quiz w)) /\
  username (playerObj (quiz (worldOf c))) = username (playerObj (quiz w)) /\
  finishTimers (worldOf c) = finishTimers w /\
  List.length (allQuestions (quiz (worldOf c))) = List.length results /\
  shown (worldOf c) =
    shown w ++ [LoadingPanelShown; QuizPanelShown] ++
    match allQuestions (quiz (worldOf c)) with
    | [] => []
    | q0 :: _ => [QuestionShown q0 0 0]
    end.
Proof.
  intros c. subst c. rewrite restart_is_start.
  pose proof (mapResults_length results (random w)) as HL.
  destruct (mapResults unescapeHTMLEntities results (random w)) as [qs r].
  cbn [fst snd] in *.
  destruct qs as [|q0 rest].
  - rewrite start_empty_world. rewrite <- HL. fields.
    rewrite <- app_assoc. repeat split.
  - rewrite <- HL.
    unfold start, restartQuiz, initializeQuiz, gen_next, quizFlowGenerator_new.
    fields. unfold gen_loop. fields. cbn [nth_error].
    unfold displayCurrentQuestion. fields. cbn [nth_error]. fields.
    unfold genCorrectCount. fields. rewrite <- !app_assoc. repeat split.
Qed.

(** X4.  A restart whose load succeeds, from any page state (also in
    the middle of a quiz): it does not throw; the quiz is running at
    position 0 with both score counters and the generator's count at 0;
    history, user name and pending timers are as before; there is one
    question per raw record; and the document gains, in this order, the
    switch to the loading panel, the switch to the quiz panel and the
    display of the first question (no question when there is none). *)
Theorem restart_resets_the_session (results : list RawQuestion) (w : World) :
  let c := restartQuizFetching unescapeHTMLEntities
             (FetchResponse (Some results)) w in
  threw c = false /\
  quizRunning (quiz (worldOf c)) = true /\
  currentQIndex (quiz (worldOf c)) = 0 /\
  totalScore (quiz (worldOf c)) = 0 /\
  recentScore (playerObj (quiz (worldOf c))) = 0 /\
  genCorrectCount (worldOf c) = Some 0 /\
  allScores (playerObj (quiz (worldOf c))) = allScores (playerObj (quiz w)) /\
  username (playerObj (quiz (worldOf c))) = username (playerObj (quiz w)) /\
  finishTimers (worldOf c) = finishTimers w /\
  List.length (allQuestions (quiz (worldOf c))) = List.length results /\
  shown (worldOf c) =
    shown w ++ [LoadingPanelShown; QuizPanelShown] ++
    match allQuestions (quiz (worldOf c)) with
    | [] => []
    | q0 :: _ => [QuestionShown q0 0 0]
    end.
Proof.
  intros c. subst c. rewrite restart_is_start.
  pose proof (mapResults_length results (random w)) as HL.
  destruct (mapResults unescapeHTMLEntities results (random w)) as [qs r].
  cbn [fst snd] in *.
  destruct qs as [|q0 rest].
  - rewrite start_empty_world. rewrite <- HL. fields.
    rewrite <- app_assoc. repeat split.
  - rewrite <- HL.
    unfold start, restartQuiz, initializeQuiz, gen_next, quizFlowGenerator_new.
    fields. unfold gen_loop. fields. cbn [nth_error].
    unfold displayCurrentQuestion. fields. cbn [nth_error]. fields.
    unfold genCorrectCount. fields. rewrite <- !app_assoc. repeat split.
Qed.

(** [QuizApp.init] with a load that succeeds is [start] on the questions
    built, after the switch to the quiz panel; with a load that fails it
    leaves the quiz alone and reports in the loading panel. *)
Lemma QuizApp_init_is_start (results : list RawQuestion) (w : World) :
  QuizApp_init unescapeHTMLEntities (FetchResponse (Some results)) w =
    start (fst (mapResults unescapeHTMLEntities results (random w)))
          (show QuizPanelShown
             (set_random
                (snd (mapResults unescapeHTMLEntities results (random w))) w)) /\
  QuizApp_init unescapeHTMLEntities FetchRejected w =
    Normal tt
      (show (LoadFailedShown
               "Oops, couldn't load the questions. Try refreshing.") w) /\
  QuizApp_init unescapeHTMLEntities (FetchResponse None) w =
    Normal tt
      (show (LoadFailedShown
               "Oops, couldn't load the questions. Try refreshing.") w).
Proof.
  split; [|split; reflexivity].
  unfold QuizApp_init, fetchQuestionsFromAPI, start, restartQuiz.
  fields.
  destruct (mapResults unescapeHTMLEntities results (random w)) as [qs r].
  reflexivity.
Qed.

Lemma docOnly_fetch (outcome : FetchOutcome) (w w' : World) :
  docOnly w w' ->
  fst (fetchQuestionsFromAPI unescapeHTMLEntities outcome w) =
    fst (fetchQuestionsFromAPI unescapeHTMLEntities outcome w') /\
  docOnly (snd (fetchQuestionsFromAPI unescapeHTMLEntities outcome w))
          (snd (fetchQuestionsFromAPI unescapeHTMLEntities outcome w')).
Proof.
  intros H. same_but_document w w' H.
  unfold fetchQuestionsFromAPI. fields.
  destruct outcome as [|[results|]]; try (split; [reflexivity | repeat split]).
  destruct (mapResults unescapeHTMLEntities results r) as [qs r1].
  split; [reflexivity | repeat split].
Qed.

Lemma docOnly_restart (outcome : FetchOutcome) (w w' : World) :
  docOnly w w' ->
  docOnly (worldOf (restartQuizFetching unescapeHTMLEntities outcome w))
          (worldOf (restartQuizFetching unescapeHTMLEntities outcome w')).
Proof.
  intros H. unfold restartQuizFetching.
  assert (H0 : docOnly (show LoadingPanelShown w) (show LoadingPanelShown w'))
    by (same_but_document w w' H; repeat split).
  destruct (docOnly_fetch outcome _ _ H0) as (Hl & H1).
  destruct (fetchQuestionsFromAPI unescapeHTMLEntities outcome
              (show LoadingPanelShown w)) as [loaded w1].
  destruct (fetchQuestionsFromAPI unescapeHTMLEntities outcome
              (show LoadingPanelShown w')) as [loaded' w1'].
  cbn [fst snd] in *. subst loaded'.
  destruct (truthy loaded); cbn [worldOf].
  - apply docOnly_initializeQuiz.
    same_but_document w1 w1' H1. repeat split.
  - same_but_document w1 w1' H1. repeat split.
Qed.

Lemma docOnly_handle (act : Action) (w w' : World) :
  docOnly w w' ->
  docOnly (handle unescapeHTMLEntities w act)
          (handle unescapeHTMLEntities w' act).
Proof.
  intros H. destruct act; cbn [handle].
  - apply docOnly_selectAnswer. exact H.
  - apply docOnly_moveToNextQ. exact H.
  - apply docOnly_fireTimer. exact H.
  - apply docOnly_restart. exact H.
Qed.

Lemma docOnly_handleAll (acts : list Action) :
  forall w w',
    docOnly w w' ->
    docOnly (handleAll unescapeHTMLEntities acts w)
            (handleAll unescapeHTMLEntities acts w').
Proof.
  induction acts as [|act acts IH]; intros w w' H; [exact H|].
  rewrite !handleAll_cons. apply IH. apply docOnly_handle. exact H.
Qed.

Lemma failed_restart_effect (w : World) :
  restartQuizFetching unescapeHTMLEntities FetchRejected w =
    Normal tt
      (show (LoadFailedShown "Couldn't reload questions. Try again plz.")
         (show LoadingPanelShown w)) /\
  restartQuizFetching unescapeHTMLEntities (FetchResponse None) w =
    Normal tt
      (show (LoadFailedShown "Couldn't reload questions. Try again plz.")
         (show LoadingPanelShown w)).
Proof. split; reflexivity. Qed.

(** X5.  A restart whose load fails (the request throws, or the body
    has no [results]) touches the document only - it switches to the
    loading panel and puts the failure text there - and nothing reads
    the document: in any sequence of page actions, leaving the failed
    restart out changes neither the quiz (questions, position, scores,
    running flag, generator, player and history) nor the next button,
    the pending timers or the random stream. *)
Theorem failed_restart_writes_only (acts acts' : list Action) (w : World) :
  shown (worldOf (restartQuizFetching unescapeHTMLEntities FetchRejected w)) =
    shown w ++
    [LoadingPanelShown;
     LoadFailedShown "Couldn't reload questions. Try again plz."] /\
  shown (worldOf (restartQuizFetching unescapeHTMLEntities
                    (FetchResponse None) w)) =
    shown w ++
    [LoadingPanelShown;
     LoadFailedShown "Couldn't reload questions. Try again plz."] /\
  docOnly
    (handleAll unescapeHTMLEntities
       (acts ++ ClickRestart FetchRejected :: acts') w)
    (handleAll unescapeHTMLEntities (acts ++ acts') w) /\
  docOnly
    (handleAll unescapeHTMLEntities
       (acts ++ ClickRestart (FetchResponse None) :: acts') w)
    (handleAll unescapeHTMLEntities (acts ++ acts') w).
Proof.
  destruct (failed_restart_effect w) as [E1 E2].
  rewrite E1, E2. fields. rewrite <- !app_assoc.
  split; [reflexivity|]. split; [reflexivity|].
  rewrite !handleAll_app, !handleAll_cons. cbn [handle].
  destruct (failed_restart_effect (handleAll unescapeHTMLEntities acts w))
    as [F1 F2].
  rewrite F1, F2. cbn [worldOf].
  split; apply docOnly_handleAll;
    (eapply docOnly_trans; [apply docOnly_show | apply docOnly_show]).
Qed.

End RestartFacts.

(** ** Invariants over arbitrary page actions *)

Section ActionInvariants.

Variable unescapeHTMLEntities : string -> string.

Lemma paired_handle (w : World) (act : Action) :
  recentScore (playerObj (quiz w)) = totalScore (quiz w) ->
  recentScore (playerObj (quiz (handle unescapeHTMLEntities w act))) =
  totalScore (quiz (handle unescapeHTMLEntities w act)).
Proof.
  intros H. destruct act as [a| | |outcome]; cbn [handle].
  - destruct (selectAnswer_effect a w) as (_ & _ & _ & E). lia.
  - destruct (moveToNextQ_keeps w) as (_ & _ & Ht & Hr & _). congruence.
  - destruct (fireTimer_keeps w) as (_ & _ & Ht & Hr & _). congruence.
  - destruct outcome as [|[results|]]; try exact H.
    destruct (restart_success_effect unescapeHTMLEntities results w)
      as (_ & _ & _ & Ht & Hr & _).
    congruence.
Qed.

(** X6.  The player's [recentScore] and the quiz's [totalScore] are one
    counter kept twice: once equal, they stay equal through every
    sequence of page actions, restarts included. *)
Theorem recentScore_tracks_totalScore (acts : list Action) (w : World) :
  recentScore (playerObj (quiz w)) = totalScore (quiz w) ->
  recentScore (playerObj (quiz (handleAll unescapeHTMLEntities acts w))) =
  totalScore (quiz (handleAll unescapeHTMLEntities acts w)).
Proof.
  revert w. induction acts as [|act acts IH]; intros w H; [exact H|].
  rewrite handleAll_cons. apply IH. apply paired_handle. exact H.
Qed.

Lemma permuted_handle (w : World) (act : Action) :
  isRestart act = false ->
  Permutation (allQuestions (quiz (handle unescapeHTMLEntities w act)))
              (allQuestions (quiz w)).
Proof.
  intros H. destruct act as [a| | |outcome]; cbn [handle]; try discriminate.
  - apply selectAnswer_effect.
  - destruct (moveToNextQ_keeps w) as (E & _). rewrite E. apply Permutation_refl.
  - destruct (fireTimer_keeps w) as (E & _). rewrite E. apply Permutation_refl.
Qed.

(** X7.  Between two restarts no question is ever lost, duplicated or
    replaced: after any sequence of answers, next clicks and timers, in
    any order, [allQuestions] is a permutation of what it was. *)
Theorem questions_are_only_permuted (acts : list Action) (w : World) :
  forallb (fun act => negb (isRestart act)) acts = true ->
  Permutation (allQuestions (quiz (handleAll unescapeHTMLEntities acts w)))
              (allQuestions (quiz w)).
Proof.
  revert w. induction acts as [|act acts IH]; intros w H.
  - apply Permutation_refl.
  - cbn [forallb] in H. apply andb_true_iff in H as [Ha H].
    rewrite handleAll_cons.
    eapply Permutation_trans; [apply IH; exact H|].
    apply permuted_handle. apply negb_true_iff. exact Ha.
Qed.

Lemma stopped_handle (w : World) (act : Action) :
  isRestart act = false ->
  quizRunning (quiz w) = false ->
  quizRunning (quiz (handle unescapeHTMLEntities w act)) = false /\
  totalScore (quiz (handle unescapeHTMLEntities w act)) = totalScore (quiz w) /\
  allQuestions (quiz (handle unescapeHTMLEntities w act)) = allQuestions (quiz w) /\
  qGen (quiz (handle unescapeHTMLEntities w act)) = qGen (quiz w).
Proof.
  intros H Hs. destruct act as [a| | |outcome]; cbn [handle]; try discriminate.
  - rewrite (selectAnswer_stopped a w Hs). cbn [worldOf]. repeat split. exact Hs.
  - destruct (moveToNextQ_keeps w) as (Eq & Eg & Et & _ & Er). auto.
  - destruct (fireTimer_keeps w) as (Eq & Eg & Et & _ & Er). auto.
Qed.

(** X8.  A finished quiz stays finished until a restart: whatever
    answers, next clicks and timers follow, in any order, the quiz is
    still not running and its score, its questions and its generator
    are unchanged. *)
Theorem finished_quiz_is_frozen (acts : list Action) (w : World) :
  forallb (fun act => negb (isRestart act)) acts = true ->
  quizRunning (quiz w) = false ->
  quizRunning (quiz (handleAll unescapeHTMLEntities acts w)) = false /\
  totalScore (quiz (handleAll unescapeHTMLEntities acts w)) = totalScore (quiz w) /\
  allQuestions (quiz (handleAll unescapeHTMLEntities acts w)) = allQuestions (quiz w) /\
  qGen (quiz (handleAll unescapeHTMLEntities acts w)) = qGen (quiz w).
Proof.
  revert w. induction acts as [|act acts IH]; intros w H Hs.
  - repeat split. exact Hs.
  - cbn [forallb] in H. apply andb_true_iff in H as [Ha H].
    apply negb_true_iff in Ha.
    destruct (stopped_handle w act Ha Hs) as (E1 & E2 & E3 & E4).
    rewrite handleAll_cons.
    destruct (IH _ H E1) as (F1 & F2 & F3 & F4).
    repeat split; congruence.
Qed.

End ActionInvariants.

Lemma recentScore_tracks_totalScore_witness :
  recentScore (playerObj (quiz samplePage)) = totalScore (quiz samplePage) /\
  recentScore
    (playerObj (quiz (handleAll (fun s => s)
       [ClickRestart (FetchResponse (Some [rawCapital])); ClickAnswer "Paris"]
       samplePage))) =
  totalScore
    (quiz (handleAll (fun s => s)
       [ClickRestart (FetchResponse (Some [rawCapital])); ClickAnswer "Paris"]
       samplePage)).
Proof.
  split; [reflexivity|].
  apply recentScore_tracks_totalScore. reflexivity.
Defined.

Lemma questions_are_only_permuted_witness :
  forallb (fun act => negb (isRestart act))
          [ClickAnswer "Paris"; ClickNext; ClickAnswer "Mars"; TimerDue] = true /\
  Permutation
    (allQuestions
       (quiz (handleAll (fun s => s)
                [ClickAnswer "Paris"; ClickNext; ClickAnswer "Mars"; TimerDue]
                (worldOf (start sampleBatch samplePage)))))
    (allQuestions (quiz (worldOf (start sampleBatch samplePage)))).
Proof.
  split; [reflexivity|].
  apply questions_are_only_permuted. reflexivity.
Defined.

Lemma finished_quiz_is_frozen_witness :
  (forallb (fun act => negb (isRestart act))
           [ClickAnswer "Paris"; ClickNext; TimerDue] = true /\
   quizRunning (quiz samplePage) = false) /\
  totalScore
    (quiz (handleAll (fun s => s)
             [ClickAnswer "Paris"; ClickNext; TimerDue] samplePage)) =
  totalScore (quiz samplePage).
Proof.
  split; [split; reflexivity|].
  apply (finished_quiz_is_frozen (fun s => s)
           [ClickAnswer "Paris"; ClickNext; TimerDue] samplePage);
    reflexivity.
Defined.

(** ** The order in which questions are shown *)

(** A non-final answer on a waiting quiz rebuilds [allQuestions] from
    its head up to the question just answered and the reordering of the
    rest, for the target of the updated record. *)
Lemma selectAnswer_reorders (a : string) (k : nat) (w : World) (q : Question) :
  awaiting k w ->
  nth_error (allQuestions (quiz w)) k = Some q ->
  S k < List.length (allQuestions (quiz w)) ->
  allQuestions (quiz (worldOf (selectAnswer a w))) =
  firstn (S k) (allQuestions (quiz w)) ++
  fst (reorder
         (targetAfter (if validateAnswer q a
                       then S (totalScore (quiz w)) else totalScore (quiz w))
                      (S k))
         (skipn (S k) (allQuestions (quiz w))) (random w)).
Proof.
  intros (Hrun & Hcur & Hbtn & q0 & Hq0 & Hgen) Hq HSk.
  assert (q0 = q) by congruence. subst q0.
  unfold selectAnswer. rewrite Hrun, Hcur, Hq. cbn [negb].
  set (v := validateAnswer q a).
  set (w2 := show (FeedbackShown q a v)
               (if v then with_quiz creditAnswer w else w)).
  assert (G2 : qGen (quiz w2) =
               Some {| pc := SuspendedYield q; qIndex := k;
                       correctCount := totalScore (quiz w) |})
    by (subst w2; destruct v; fields; exact Hgen).
  assert (Q2 : allQuestions (quiz w2) = allQuestions (quiz w))
    by (subst w2; destruct v; reflexivity).
  assert (R2 : random w2 = random w)
    by (subst w2; destruct v; reflexivity).
  unfold gen_next. rewrite G2. fields. unfold gen_resume. fields. fold v.
  rewrite Q2.
  assert (C : (S k <? List.length (allQuestions (quiz w))) && (0 <? S k) = true).
  { apply andb_true_iff. split; apply Nat.ltb_lt; lia. }
  rewrite C. unfold adapt, targetAfter. rewrite Q2, R2.
  destruct (reorder _ _ (random w)) as [sorted r].
  unfold gen_loop. fields.
  destruct (nth_error _ (S k)); cbn [done negb]; fields; reflexivity.
Qed.

Lemma advance_keeps_questions (w : World) :
  allQuestions (quiz (advance w)) = allQuestions (quiz w).
Proof.
  unfold advance. destruct (nextBtnShown w).
  - apply moveToNextQ_keeps.
  - apply fireTimer_keeps.
Qed.

(** A final answer leaves the questions as they are. *)
Lemma selectAnswer_last (a : string) (k : nat) (w : World) :
  awaiting k w ->
  S k = List.length (allQuestions (quiz w)) ->
  allQuestions (quiz (worldOf (selectAnswer a w))) = allQuestions (quiz w).
Proof.
  intros (Hrun & Hcur & Hbtn & q & Hq & Hgen) HSk.
  unfold selectAnswer. rewrite Hrun, Hcur, Hq. cbn [negb].
  set (v := validateAnswer q a).
  set (w2 := show (FeedbackShown q a v)
               (if v then with_quiz creditAnswer w else w)).
  assert (G2 : qGen (quiz w2) =
               Some {| pc := SuspendedYield q; qIndex := k;
                       correctCount := totalScore (quiz w) |})
    by (subst w2; destruct v; fields; exact Hgen).
  assert (Q2 : allQuestions (quiz w2) = allQuestions (quiz w))
    by (subst w2; destruct v; reflexivity).
  unfold gen_next. rewrite G2. fields. unfold gen_resume. fields.
  rewrite Q2.
  assert (C : (S k <? List.length (allQuestions (quiz w))) && (0 <? S k) = false).
  { apply andb_false_iff. left. apply Nat.ltb_ge. lia. }
  rewrite C. unfold gen_loop.
  destruct (nth_error _ (S k)); cbn [done negb]; fields; exact Q2.
Qed.

(** One answer and the advance on a waiting quiz, with the question
    that comes on display. *)
Lemma submitAnswer_shows_next (a : string) (k : nat) (w : World) (q : Question) :
  awaiting k w ->
  nth_error (allQuestions (quiz w)) k = Some q ->
  S k < List.length (allQuestions (quiz w)) ->
  exists q',
    nth_error (allQuestions (quiz (submitAnswer a w))) (S k) = Some q' /\
    shown (submitAnswer a w) =
      shown w ++
      [FeedbackShown q a (validateAnswer q a);
       QuestionShown q' (S k)
         (if validateAnswer q a
          then S (totalScore (quiz w)) else totalScore (quiz w))].
Proof.
  intros Haw Hq HSk.
  destruct (selectAnswer_awaiting a k w q Haw Hq)
    as (ws & E & Hsh & Htot & Hrun & Hcur & Htd & Hpl & Hlen & Hnext).
  unfold submitAnswer. rewrite E. cbn [worldOf]. unfold advance.
  destruct (nth_error (allQuestions (quiz ws)) (S k)) as [q'|] eqn:En.
  - destruct Hnext as (Hg & Hbtn & Htm).
    rewrite Hbtn. unfold moveToNextQ, displayCurrentQuestion. fields.
    rewrite Hcur, En. fields.
    exists q'. split; [exact En|].
    rewrite Hsh, Htot, <- app_assoc. reflexivity.
  - apply nth_error_None in En. lia.
Qed.

Lemma firstn_snoc_nth (A : Type) (l : list A) (k : nat) (x : A) :
  nth_error l k = Some x -> firstn (S k) l = firstn k l ++ [x].
Proof.
  revert k. induction l as [|y l IH]; intros [|k] H; cbn in H; try discriminate.
  - injection H as ->. reflexivity.
  - cbn [firstn app]. rewrite <- (IH k H). reflexivity.
Qed.

Lemma play_shows_in_order (answers : list string) :
  forall (k : nat) (w : World),
    awaiting k w ->
    k + List.length answers = List.length (allQuestions (quiz w)) ->
    answers <> [] ->
    exists new,
      shown (play answers w) = shown w ++ new /\
      firstn (S k) (allQuestions (quiz w)) ++ questionsShown new =
        allQuestions (quiz (play answers w)) /\
      Permutation (allQuestions (quiz (play answers w)))
                  (allQuestions (quiz w)).
Proof.
  induction answers as [|a rest IH]; intros k w Haw Hlen Hne; [congruence|].
  assert (Hq : exists q, nth_error (allQuestions (quiz w)) k = Some q).
  { destruct Haw as (_ & _ & _ & q & Hq & _). exists q. exact Hq. }
  destruct Hq as [q Hq].
  rewrite play_cons. cbn [List.length] in Hlen.
  assert (HP : Permutation (allQuestions (quiz (submitAnswer a w)))
                           (allQuestions (quiz w))).
  { unfold submitAnswer. rewrite advance_keeps_questions.
    apply selectAnswer_effect. }
  destruct rest as [|b rest'].
  - (* the last answer *)
    assert (HSk : S k = List.length (allQuestions (quiz w))) by (cbn in Hlen; lia).
    destruct (submitAnswer_awaiting a k w q Haw Hq)
      as (_ & _ & _ & _ & _ & _ & [(Hlt & _) | (_ & _ & Hsh & _)]); [lia|].
    cbn [play fold_left]. eexists. split; [exact Hsh|].
    split; [|exact HP].
    cbn [questionsShown]. rewrite app_nil_r.
    unfold submitAnswer. rewrite advance_keeps_questions.
    rewrite (selectAnswer_last a k w Haw HSk).
    rewrite HSk. apply firstn_all.
  - assert (HSk : S k < List.length (allQuestions (quiz w)))
      by (cbn in Hlen; lia).
    destruct (submitAnswer_awaiting a k w q Haw Hq)
      as (_ & _ & _ & Hn & _ & _ & [(_ & Haw' & _) | (Heq & _)]); [|lia].
    destruct (submitAnswer_shows_next a k w q Haw Hq HSk) as (q' & Hq' & Hsh).
    destruct (IH (S k) (submitAnswer a w) Haw') as (new & H1 & H2 & H3).
    { rewrite Hn. cbn [List.length] in *. lia. }
    { discriminate. }
    eexists. split; [rewrite H1, Hsh, <- app_assoc; reflexivity|].
    split; [|exact (Permutation_trans H3 HP)].
    rewrite <- H2, questionsShown_app. cbn [questionsShown app].
    rewrite (firstn_snoc_nth _ _ _ _ Hq'), <- app_assoc. cbn [app].
    f_equal.
    (* the head up to the answered question did not move *)
    unfold submitAnswer. rewrite advance_keeps_questions.
    rewrite (selectAnswer_reorders a k w q Haw Hq HSk).
    rewrite firstn_app, firstn_firstn, Nat.min_id, length_firstn.
    rewrite Nat.min_l by lia. rewrite Nat.sub_diag, firstn_O, app_nil_r.
    reflexivity.
Qed.

(** X9.  Over a full run on a non-empty batch (one answer per question)
    the questions put on display since [start] are, in order, exactly
    the final [allQuestions], and that is a permutation of the batch:
    every question of the batch is shown once, none twice, none is
    skipped, and a question once shown keeps its place. *)
Theorem every_question_is_shown_once (B : list Question) (answers : list string)
    (w0 : World) :
  B <> [] ->
  List.length answers = List.length B ->
  exists new,
    shown (play answers (worldOf (start B w0))) = shown w0 ++ new /\
    questionsShown new =
      allQuestions (quiz (play answers (worldOf (start B w0)))) /\
    Permutation (questionsShown new) B.
Proof.
  intros HB Hlen.
  destruct B as [|q0 rest]; [congruence|].
  destruct (start_nonempty q0 rest w0)
    as (w1 & E & Haw & HQ & _ & Hsh & _).
  rewrite E. cbn [worldOf].
  destruct (play_shows_in_order answers 0 w1 Haw) as (new & H1 & H2 & H3).
  { rewrite HQ. exact Hlen. }
  { intros ->. discriminate Hlen. }
  exists (QuestionShown q0 0 0 :: new).
  split; [rewrite H1, Hsh, <- app_assoc; reflexivity|].
  rewrite HQ in H2, H3. cbn [firstn app] in H2. cbn [questionsShown].
  split; [exact H2|]. rewrite H2. exact H3.
Qed.

Lemma every_question_is_shown_once_witness :
  (sampleBatch <> [] /\
   List.length sampleAnswers = List.length sampleBatch) /\
  exists new,
    shown (play sampleAnswers (worldOf (start sampleBatch samplePage))) =
      shown samplePage ++ new /\
    questionsShown new =
      allQuestions (quiz (play sampleAnswers (worldOf (start sampleBatch samplePage)))) /\
    Permutation (questionsShown new) sampleBatch.
Proof.
  assert (H1 : sampleBatch <> []) by discriminate.
  assert (H2 : List.length sampleAnswers = List.length sampleBatch) by reflexivity.
  split; [split; assumption|].
  exact (every_question_is_shown_once sampleBatch sampleAnswers samplePage H1 H2).
Defined.

(** ** The next question follows the target *)

Lemma targetFirst_head (targetDiff : string) (q : Question) (l : list Question) :
  targetFirst targetDiff (q :: l) = true ->
  existsb (onTarget targetDiff) (q :: l) = true ->
  onTarget targetDiff q = true.
Proof.
  cbn [targetFirst existsb].
  destruct (onTarget targetDiff q); [reflexivity|].
  intros Hall Hex. cbn [orb] in Hex.
  apply existsb_exists in Hex as (x & Hin & Hx).
  rewrite forallb_forall in Hall. specialize (Hall x Hin).
  rewrite Hx in Hall. discriminate.
Qed.

Lemma existsb_perm (A : Type) (P : A -> bool) (l l' : list A) :
  Permutation l l' -> existsb P l = true -> existsb P l' = true.
Proof.
  intros HP H. apply existsb_exists in H as (x & Hin & Hx).
  apply existsb_exists. exists x. split; [|exact Hx].
  apply (Permutation_in _ HP Hin).
Qed.

(** X10.  After a non-final answer on a waiting quiz, the question that
    comes on display has the target difficulty computed from the
    updated record (right answers over answers given) whenever at least
    one of the questions not yet shown has that difficulty. *)
Theorem next_question_is_on_target (a : string) (k : nat) (w : World)
    (q : Question) :
  awaiting k w ->
  nth_error (allQuestions (quiz w)) k = Some q ->
  S k < List.length (allQuestions (quiz w)) ->
  existsb
    (onTarget (targetAfter (if validateAnswer q a
                            then S (totalScore (quiz w)) else totalScore (quiz w))
                           (S k)))
    (skipn (S k) (allQuestions (quiz w))) = true ->
  exists q',
    shown (submitAnswer a w) =
      shown w ++
      [FeedbackShown q a (validateAnswer q a);
       QuestionShown q' (S k)
         (if validateAnswer q a
          then S (totalScore (quiz w)) else totalScore (quiz w))] /\
    difficultyLevel q' =
      targetAfter (if validateAnswer q a
                   then S (totalScore (quiz w)) else totalScore (quiz w))
                  (S k).
Proof.
  intros Haw Hq HSk Hex.
  destruct (submitAnswer_shows_next a k w q Haw Hq HSk) as (q' & Hq' & Hsh).
  exists q'. split; [exact Hsh|].
  unfold submitAnswer in Hq'. rewrite advance_keeps_questions in Hq'.
  rewrite (selectAnswer_reorders a k w q Haw Hq HSk) in Hq'.
  set (t := targetAfter _ (S k)) in *.
  set (tail := skipn (S k) (allQuestions (quiz w))) in *.
  assert (HT : targetFirst t (fst (reorder t tail (random w))) = true)
    by apply reorder_targetFirst.
  assert (HE : existsb (onTarget t) (fst (reorder t tail (random w))) = true).
  { apply (existsb_perm _ _ tail); [|exact Hex].
    apply Permutation_sym. apply (Array_sort_perm _ (compareFn t) tail). }
  rewrite nth_error_app2 in Hq' by (rewrite length_firstn; lia).
  rewrite length_firstn, Nat.min_l, Nat.sub_diag in Hq' by lia.
  destruct (fst (reorder t tail (random w))) as [|x rest]; [discriminate|].
  cbn in Hq'. injection Hq' as ->.
  apply String.eqb_eq. apply (targetFirst_head t q' rest HT HE).
Qed.

Lemma next_question_is_on_target_witness :
  (awaiting 0 (worldOf (start sampleBatch samplePage)) /\
   nth_error (allQuestions (quiz (worldOf (start sampleBatch samplePage)))) 0
     = Some capitalQ /\
   1 < List.length (allQuestions (quiz (worldOf (start sampleBatch samplePage)))) /\
   existsb
     (onTarget (targetAfter
                  (if validateAnswer capitalQ "Paris"
                   then S (totalScore (quiz (worldOf (start sampleBatch samplePage))))
                   else totalScore (quiz (worldOf (start sampleBatch samplePage))))
                  1))
     (skipn 1 (allQuestions (quiz (worldOf (start sampleBatch samplePage)))))
     = true) /\
  exists q',
    shown (submitAnswer "Paris" (worldOf (start sampleBatch samplePage))) =
      shown (worldOf (start sampleBatch samplePage)) ++
      [FeedbackShown capitalQ "Paris" (validateAnswer capitalQ "Paris");
       QuestionShown q' 1
         (if validateAnswer capitalQ "Paris"
          then S (totalScore (quiz (worldOf (start sampleBatch samplePage))))
          else totalScore (quiz (worldOf (start sampleBatch samplePage))))] /\
    difficultyLevel q' =
      targetAfter
        (if validateAnswer capitalQ "Paris"
         then S (totalScore (quiz (worldOf (start sampleBatch samplePage))))
         else totalScore (quiz (worldOf (start sampleBatch samplePage))))
        1.
Proof.
  assert (H1 : awaiting 0 (worldOf (start sampleBatch samplePage))).
  { unfold awaiting. repeat split. exists capitalQ. split; reflexivity. }
  assert (H2 : nth_error
                 (allQuestions (quiz (worldOf (start sampleBatch samplePage)))) 0
               = Some capitalQ) by reflexivity.
  assert (H3 : 1 < List.length
                     (allQuestions (quiz (worldOf (start sampleBatch samplePage)))))
    by (cbn; lia).
  assert (H4 : existsb
     (onTarget (targetAfter
                  (if validateAnswer capitalQ "Paris"
                   then S (totalScore (quiz (worldOf (start sampleBatch samplePage))))
                   else totalScore (quiz (worldOf (start sampleBatch samplePage))))
                  1))
     (skipn 1 (allQuestions (quiz (worldOf (start sampleBatch samplePage)))))
     = true) by (vm_compute; reflexivity).
  split; [exact (conj H1 (conj H2 (conj H3 H4)))|].
  exact (next_question_is_on_target "Paris" 0
           (worldOf (start sampleBatch samplePage)) capitalQ H1 H2 H3 H4).
Defined.

(** ** The score never exceeds the number of questions *)

(** Within bounds: the score is at most the number of questions, and a
    running quiz either waits at a position the score does not exceed,
    or has no question at its position. *)
Lemma advance_within_bounds (w : World) :
  totalScore (quiz w) <= List.length (allQuestions (quiz w)) ->
  (quizRunning (quiz w) = true ->
   nth_error (allQuestions (quiz w)) (currentQIndex (quiz w)) = None) ->
  totalScore (quiz (advance w)) <= List.length (allQuestions (quiz (advance w))) /\
  (quizRunning (quiz (advance w)) = true ->
   nth_error (allQuestions (quiz (advance w))) (currentQIndex (quiz (advance w)))
     = None) /\
  exists added,
    allScores (playerObj (quiz (advance w))) =
      allScores (playerObj (quiz w)) ++ added /\
    Forall (fun e => score e <= total e) added.
Proof.
  intros Hb Hstuck.
  unfold advance, moveToNextQ, fireTimer, displayCurrentQuestion, finishQuiz.
  destruct (nextBtnShown w).
  - fields.
    destruct (nth_error (allQuestions (quiz w)) (S (currentQIndex (quiz w))))
      as [q|] eqn:En; fields.
    + split; [exact Hb|]. split.
      * intros Hr. specialize (Hstuck Hr).
        apply nth_error_None in Hstuck.
        assert (nth_error (allQuestions (quiz w)) (S (currentQIndex (quiz w))) = None)
          by (apply nth_error_None; lia).
        congruence.
      * exists []. rewrite app_nil_r. split; [reflexivity | constructor].
    + split; [exact Hb|]. split; [discriminate|].
      eexists [_]. split; [reflexivity|].
      constructor; [exact Hb | constructor].
  - destruct (finishTimers w); fields.
    + split; [exact Hb|]. split; [exact Hstuck|].
      exists []. rewrite app_nil_r. split; [reflexivity | constructor].
    + split; [exact Hb|]. split; [discriminate|].
      eexists [_]. split; [reflexivity|].
      constructor; [exact Hb | constructor].
Qed.

Lemma submitAnswer_within_bounds (a : string) (w : World) :
  totalScore (quiz w) <= List.length (allQuestions (quiz w)) ->
  (quizRunning (quiz w) = true ->
   (awaiting (currentQIndex (quiz w)) w /\
    totalScore (quiz w) <= currentQIndex (quiz w)) \/
   nth_error (allQuestions (quiz w)) (currentQIndex (quiz w)) = None) ->
  totalScore (quiz (submitAnswer a w)) <=
    List.length (allQuestions (quiz (submitAnswer a w))) /\
  (quizRunning (quiz (submitAnswer a w)) = true ->
   (awaiting (currentQIndex (quiz (submitAnswer a w))) (submitAnswer a w) /\
    totalScore (quiz (submitAnswer a w)) <= currentQIndex (quiz (submitAnswer a w))) \/
   nth_error (allQuestions (quiz (submitAnswer a w)))
             (currentQIndex (quiz (submitAnswer a w))) = None) /\
  exists added,
    allScores (playerObj (quiz (submitAnswer a w))) =
      allScores (playerObj (quiz w)) ++ added /\
    Forall (fun e => score e <= total e) added.
Proof.
  intros Hb Hrun.
  destruct (quizRunning (quiz w)) eqn:Er.
  - destruct (Hrun eq_refl) as [[Haw Hk]|Hnone].
    + assert (Hq : exists q, nth_error (allQuestions (quiz w))
                               (currentQIndex (quiz w)) = Some q).
      { destruct Haw as (_ & _ & _ & q & Hq & _). exists q. exact Hq. }
      destruct Hq as [q Hq].
      destruct (submitAnswer_awaiting a _ w q Haw Hq)
        as (Htot & _ & _ & Hn & _ & _ & Hcase).
      assert (Ht' : totalScore (quiz (submitAnswer a w)) <=
                    S (currentQIndex (quiz w)))
        by (rewrite Htot; destruct (validateAnswer q a); lia).
      destruct Hcase as [(HSk & Haw' & _ & Hpl) | (HSk & Hstop & _ & Hpl)].
      * assert (Hc : currentQIndex (quiz (submitAnswer a w)) =
                     S (currentQIndex (quiz w))) by apply Haw'.
        split; [rewrite Hn; lia|]. split.
        -- intros _. left. rewrite Hc. split; [exact Haw' | exact Ht'].
        -- exists []. rewrite app_nil_r. split; [exact Hpl | constructor].
      * split; [rewrite Hn; lia|]. split; [congruence|].
        eexists [_]. split; [exact Hpl|].
        constructor; [|constructor]. cbn [score total].
        rewrite <- Htot. lia.
    + assert (E : selectAnswer a w = TypeError w).
      { unfold selectAnswer. rewrite Er, Hnone. reflexivity. }
      unfold submitAnswer. rewrite E. cbn [worldOf].
      destruct (advance_within_bounds w Hb (fun _ => Hnone)) as (B1 & B2 & B3).
      split; [exact B1|]. split; [|exact B3].
      intros Hr. right. exact (B2 Hr).
  - assert (E : selectAnswer a w = Normal tt w)
      by (apply selectAnswer_stopped; exact Er).
    unfold submitAnswer. rewrite E. cbn [worldOf].
    destruct (advance_within_bounds w Hb) as (B1 & B2 & B3); [congruence|].
    split; [exact B1|]. split; [|exact B3].
    intros Hr. right. exact (B2 Hr).
Qed.

Lemma play_within_bounds (answers : list string) :
  forall w,
    totalScore (quiz w) <= List.length (allQuestions (quiz w)) ->
    (quizRunning (quiz w) = true ->
     (awaiting (currentQIndex (quiz w)) w /\
      totalScore (quiz w) <= currentQIndex (quiz w)) \/
     nth_error (allQuestions (quiz w)) (currentQIndex (quiz w)) = None) ->
    totalScore (quiz (play answers w)) <=
      List.length (allQuestions (quiz (play answers w))) /\
    exists added,
      allScores (playerObj (quiz (play answers w))) =
        allScores (playerObj (quiz w)) ++ added /\
      Forall (fun e => score e <= total e) added.
Proof.
  induction answers as [|a rest IH]; intros w Hb Hrun.
  - split; [exact Hb|]. exists []. rewrite app_nil_r.
    split; [reflexivity | constructor].
  - rewrite play_cons.
    destruct (submitAnswer_within_bounds a w Hb Hrun)
      as (B1 & B2 & added1 & P1 & F1).
    destruct (IH _ B1 B2) as (C1 & added2 & P2 & F2).
    split; [exact C1|].
    exists (added1 ++ added2). split.
    + rewrite P2, P1, app_assoc. reflexivity.
    + apply Forall_app. split; assumption.
Qed.

(** X11.  For every batch (empty or not), every sequence of answers,
    each followed by the advance, and every starting page: the score
    never exceeds the number of questions, and every attempt recorded
    since [start] has [score <= total]. *)
Theorem recorded_score_within_total (B : list Question) (answers : list string)
    (w0 : World) :
  totalScore (quiz (play answers (worldOf (start B w0)))) <=
    List.length (allQuestions (quiz (play answers (worldOf (start B w0))))) /\
  exists added,
    allScores (playerObj (quiz (play answers (worldOf (start B w0))))) =
      allScores (playerObj (quiz w0)) ++ added /\
    Forall (fun e => score e <= total e) added.
Proof.
  assert (S0 : allScores (playerObj (quiz (worldOf (start B w0)))) =
               allScores (playerObj (quiz w0)) /\
               totalScore (quiz (worldOf (start B w0))) = 0 /\
               (quizRunning (quiz (worldOf (start B w0))) = true ->
                awaiting (currentQIndex (quiz (worldOf (start B w0))))
                         (worldOf (start B w0)) \/
                nth_error (allQuestions (quiz (worldOf (start B w0))))
                          (currentQIndex (quiz (worldOf (start B w0)))) = None)).
  { destruct B as [|q0 rest].
    - rewrite start_empty_world. cbn [worldOf]. fields.
      repeat split. intros _. right. reflexivity.
    - destruct (start_nonempty q0 rest w0)
        as (w1 & E & Haw & _ & Ht & _ & _ & _ & Hpl).
      rewrite E. cbn [worldOf].
      split; [exact Hpl|]. split; [exact Ht|].
      intros _. left.
      assert (Hc : currentQIndex (quiz w1) = 0) by apply Haw.
      rewrite Hc. exact Haw. }
  destruct S0 as (Hpl & Ht & Hrun).
  destruct (play_within_bounds answers (worldOf (start B w0)))
    as (B1 & added & P & F).
  - rewrite Ht. lia.
  - intros Hr. destruct (Hrun Hr) as [Haw|Hnone]; [left|right; exact Hnone].
    split; [exact Haw|]. rewrite Ht. lia.
  - split; [exact B1|]. exists added. rewrite P, Hpl. split; [reflexivity|exact F].
Qed.

(** ** The target rises with the ratio *)

(** Above a positive finite bound [c], and at most [r2]: then [r2] is
    above [c] too. *)
Lemma above_stays_above (mc : positive) (ec : Z) (r1 r2 : number) :
  gt r1 (S754_finite false mc ec) = true ->
  le r1 r2 = true ->
  gt r2 (S754_finite false mc ec) = true.
Proof.
  unfold gt, le, SFltb, SFleb.
  destruct r1 as [s1|s1| |s1 m1 e1]; cbn [SFcompare]; try discriminate.
  - destruct s1; [discriminate|]. intros _.
    destruct r2 as [s2|s2| |s2 m2 e2]; cbn [SFcompare]; try discriminate.
    destruct s2; [discriminate | reflexivity].
  - destruct s1; [discriminate|].
    destruct r2 as [s2|s2| |s2 m2 e2]; cbn [SFcompare]; try discriminate.
    + destruct s2; [discriminate | reflexivity].
    + destruct s2; [discriminate|].
      rewrite !Pos.compare_cont_spec. cbn [Pos.switch_Eq].
      destruct (Z.compare_spec ec e1) as [E1|E1|E1]; try discriminate;
        destruct (Z.compare_spec e1 e2) as [E2|E2|E2]; try discriminate;
        destruct (Z.compare_spec ec e2) as [E3|E3|E3]; try lia; try reflexivity.
      unfold Pos.switch_Eq.
      destruct (Pos.compare_spec mc m1); try discriminate.
      destruct (Pos.compare_spec m1 m2); try discriminate;
        destruct (Pos.compare_spec mc m2); try lia; reflexivity.
Qed.

(** X12.  The target never falls when the ratio rises: for any two
    Numbers with [r1 <= r2], the target for [r2] ranks at least as high
    (easy, medium, hard) as the target for [r1]. *)
Theorem target_is_monotone (r1 r2 : number) :
  le r1 r2 = true ->
  levelRank (calculateDificultyLevel r1) <=
  levelRank (calculateDificultyLevel r2).
Proof.
  intros Hle. unfold calculateDificultyLevel.
  destruct (gt r1 js_0_7) eqn:H7.
  - pose proof (above_stays_above _ _ r1 r2 H7 Hle) as H7'.
    change (gt r2 js_0_7 = true) in H7'. rewrite H7'.
    apply Nat.le_refl.
  - destruct (gt r1 js_0_4) eqn:H4.
    + pose proof (above_stays_above _ _ r1 r2 H4 Hle) as H4'.
      change (gt r2 js_0_4 = true) in H4'. rewrite H4'.
      destruct (gt r2 js_0_7); cbn; lia.
    + destruct (gt r2 js_0_7); [cbn; lia|].
      destruct (gt r2 js_0_4); cbn; lia.
Qed.

Lemma target_is_monotone_witness :
  le (lit 4 10) (lit 7 10) = true /\
  levelRank (calculateDificultyLevel (lit 4 10)) <=
  levelRank (calculateDificultyLevel (lit 7 10)).
Proof.
  assert (H : le (lit 4 10) (lit 7 10) = true) by (vm_compute; reflexivity).
  split; [exact H|].
  exact (target_is_monotone (lit 4 10) (lit 7 10) H).
Defined.

Lemma extremes_100 : extremes_upto 100 = true.
Proof. vm_compute. reflexivity. Qed.

(** X13.  At every position of a quiz of up to a hundred questions, a
    record with every answer right targets "hard" and a record with no
    answer right targets "easy". *)
Theorem perfect_and_empty_records (qi : nat) :
  1 <= qi -> qi <= 100 ->
  targetAfter qi qi = "hard" /\ targetAfter 0 qi = "easy".
Proof.
  intros H1 H100.
  pose proof extremes_100 as H. unfold extremes_upto in H.
  rewrite forallb_forall in H.
  specialize (H qi). rewrite in_seq in H.
  assert (Hin : 1 <= qi < 1 + 100) by lia.
  apply H in Hin. apply andb_true_iff in Hin as [Hh He].
  split; apply String.eqb_eq; assumption.
Qed.

Lemma perfect_and_empty_records_witness :
  (1 <= 10 /\ 10 <= 100) /\
  targetAfter 10 10 = "hard" /\ targetAfter 0 10 = "easy".
Proof.
  assert (H1 : 1 <= 10) by lia.
  assert (H2 : 10 <= 100) by lia.
  split; [split; assumption|].
  exact (perfect_and_empty_records 10 H1 H2).
Defined.

(** ** Edges: no questions, no generator *)

Lemma advance_idle (w : World) :
  nextBtnShown w = false -> finishTimers w = 0 -> advance w = w.
Proof.
  intros Hb Ht. unfold advance, fireTimer. rewrite Hb, Ht. reflexivity.
Qed.

(** X14.  Started on an empty batch, from a page with the next button
    hidden and no timer pending, the quiz is stranded: it counts as
    running, nothing has been displayed, every answer throws a
    TypeError, and no sequence of answers changes anything. *)
Theorem empty_batch_strands_the_quiz (answers : list string) (a : string)
    (w0 : World) :
  nextBtnShown w0 = false ->
  finishTimers w0 = 0 ->
  quizRunning (quiz (worldOf (start [] w0))) = true /\
  shown (worldOf (start [] w0)) = shown w0 /\
  selectAnswer a (worldOf (start [] w0)) = TypeError (worldOf (start [] w0)) /\
  play answers (worldOf (start [] w0)) = worldOf (start [] w0).
Proof.
  intros Hb Ht. rewrite start_empty_world. cbn [worldOf].
  set (w := set_gen _ _).
  assert (Hsel : forall b, selectAnswer b w = TypeError w) by (intros b; reflexivity).
  split; [reflexivity|]. split; [reflexivity|]. split; [apply Hsel|].
  induction answers as [|b rest IH]; [reflexivity|].
  rewrite play_cons. unfold submitAnswer. rewrite Hsel. cbn [worldOf].
  rewrite advance_idle; [exact IH | exact Hb | exact Ht].
Qed.

Lemma empty_batch_strands_the_quiz_witness :
  (nextBtnShown samplePage = false /\ finishTimers samplePage = 0) /\
  play sampleAnswers (worldOf (start [] samplePage)) =
  worldOf (start [] samplePage).
Proof.
  assert (H1 : nextBtnShown samplePage = false) by reflexivity.
  assert (H2 : finishTimers samplePage = 0) by reflexivity.
  split; [split; assumption|].
  exact (proj2 (proj2 (proj2
           (empty_batch_strands_the_quiz sampleAnswers "Paris" samplePage H1 H2)))).
Defined.

(** X15.  No division error guards the empty batch: when the next
    button is used on a quiz started without questions, the quiz
    finishes and records an attempt with score 0, total 0 and the
    percentage NaN (0/0), which it also shows. *)
Theorem empty_batch_records_NaN (w0 : World) :
  quizRunning (quiz (moveToNextQ (worldOf (start [] w0)))) = false /\
  shown (moveToNextQ (worldOf (start [] w0))) =
    shown w0 ++ [ResultShown 0 0 S754_nan] /\
  allScores (playerObj (quiz (moveToNextQ (worldOf (start [] w0))))) =
    allScores (playerObj (quiz w0)) ++
    [ {| score := 0; total := 0; percentage := S754_nan;
         timestamp := today w0 |} ].
Proof.
  rewrite start_empty_world. cbn [worldOf].
  unfold moveToNextQ, displayCurrentQuestion. fields. cbn [nth_error].
  unfold finishQuiz. fields. cbn [List.length].
  replace (percentOf 0 0) with S754_nan by reflexivity.
  repeat split.
Qed.

(** X16.  Without a generator ([qGen] is [null], as [new Quiz] leaves
    it), [initializeQuiz] throws a TypeError only after it has marked
    the quiz running and reset position and scores; nothing is
    displayed.  And [selectAnswer] on a running quiz with a question at
    its position throws only after it has credited and shown the
    answer. *)
Theorem null_generator_throws_late (w : World) :
  qGen (quiz w) = None ->
  (exists w',
     initializeQuiz w = TypeError w' /\
     quizRunning (quiz w') = true /\
     currentQIndex (quiz w') = 0 /\
     totalScore (quiz w') = 0 /\
     recentScore (playerObj (quiz w')) = 0 /\
     allQuestions (quiz w') = allQuestions (quiz w) /\
     shown w' = shown w) /\
  (forall a q,
     quizRunning (quiz w) = true ->
     nth_error (allQuestions (quiz w)) (currentQIndex (quiz w)) = Some q ->
     exists w',
       selectAnswer a w = TypeError w' /\
       shown w' = shown w ++ [FeedbackShown q a (validateAnswer q a)] /\
       totalScore (quiz w') =
         (if validateAnswer q a
          then S (totalScore (quiz w)) else totalScore (quiz w)) /\
       finishTimers w' = finishTimers w /\
       nextBtnShown w' = nextBtnShown w).
Proof.
  intros Hg. split.
  - unfold initializeQuiz, gen_next. fields. rewrite Hg.
    eexists. split; [reflexivity|]. fields. repeat split.
  - intros a q Hrun Hq. unfold selectAnswer. rewrite Hrun, Hq. cbn [negb].
    unfold gen_next.
    destruct (validateAnswer q a); fields; rewrite Hg;
      eexists; (split; [reflexivity|]); fields; repeat split.
Qed.

Lemma null_generator_throws_late_witness :
  qGen (quiz samplePage) = None /\
  threw (initializeQuiz samplePage) = true.
Proof.
  assert (H : qGen (quiz samplePage) = None) by reflexivity.
  split; [exact H|].
  destruct (proj1 (null_generator_throws_late samplePage H)) as (w' & E & _).
  rewrite E. reflexivity.
Defined.

(** ** A late next click *)

(** X17.  [finishQuiz] does not guard against running twice: if, after
    the answer to the last question, [moveToNextQ] runs before the
    finishing timer comes due, the quiz is finished by the one and again
    by the other, and the same attempt stands twice in the history. *)
Theorem late_next_records_twice (a : string) (k : nat) (w : World)
    (q : Question) :
  awaiting k w ->
  nth_error (allQuestions (quiz w)) k = Some q ->
  S k = List.length (allQuestions (quiz w)) ->
  let tot := if validateAnswer q a
             then S (totalScore (quiz w)) else totalScore (quiz w) in
  let e := {| score := tot; total := S k; percentage := percentOf tot (S k);
              timestamp := today w |} in
  allScores (playerObj (quiz
     (fireTimer (moveToNextQ (worldOf (selectAnswer a w)))))) =
    allScores (playerObj (quiz w)) ++ [e; e] /\
  shown (fireTimer (moveToNextQ (worldOf (selectAnswer a w)))) =
    shown w ++ [FeedbackShown q a (validateAnswer q a);
                ResultShown tot (S k) (percentOf tot (S k));
                ResultShown tot (S k) (percentOf tot (S k))] /\
  finishTimers (fireTimer (moveToNextQ (worldOf (selectAnswer a w)))) =
    finishTimers w.
Proof.
  intros Haw Hq HSk tot e.
  destruct (selectAnswer_awaiting a k w q Haw Hq)
    as (ws & E & Hsh & Htot & Hrun & Hcur & Htd & Hpl & Hlen & Hnext).
  rewrite E. cbn [worldOf].
  assert (En : nth_error (allQuestions (quiz ws)) (S k) = None)
    by (apply nth_error_None; lia).
  rewrite En in Hnext. destruct Hnext as (_ & _ & Htm).
  unfold moveToNextQ, displayCurrentQuestion. fields.
  rewrite Hcur, En.
  unfold fireTimer, finishQuiz. fields. rewrite Htm. fields.
  rewrite Hsh, Hpl, Htot, Hlen, Htd, <- HSk, <- !app_assoc.
  repeat split.
Qed.

Lemma late_next_records_twice_witness :
  (awaiting 0 (worldOf (start [capitalQ] samplePage)) /\
   nth_error (allQuestions (quiz (worldOf (start [capitalQ] samplePage)))) 0
     = Some capitalQ /\
   1 = List.length (allQuestions (quiz (worldOf (start [capitalQ] samplePage))))) /\
  finishTimers
    (fireTimer (moveToNextQ
       (worldOf (selectAnswer "Paris" (worldOf (start [capitalQ] samplePage))))))
  = finishTimers (worldOf (start [capitalQ] samplePage)).
Proof.
  assert (H1 : awaiting 0 (worldOf (start [capitalQ] samplePage))).
  { unfold awaiting. repeat split. exists capitalQ. split; reflexivity. }
  assert (H2 : nth_error
                 (allQuestions (quiz (worldOf (start [capitalQ] samplePage)))) 0
               = Some capitalQ) by reflexivity.
  assert (H3 : 1 = List.length
                     (allQuestions (quiz (worldOf (start [capitalQ] samplePage)))))
    by reflexivity.
  split; [exact (conj H1 (conj H2 H3))|].
  exact (proj2 (proj2 (late_next_records_twice "Paris" 0
                         (worldOf (start [capitalQ] samplePage)) capitalQ
                         H1 H2 H3))).
Defined.

(** ** What the page displays is consistent *)

Lemma play_consistent (answers : list string) :
  forall (k : nat) (w : World) (q : Question),
    awaiting k w ->
    nth_error (allQuestions (quiz w)) k = Some q ->
    k + List.length answers = List.length (allQuestions (quiz w)) ->
    answers <> [] ->
    exists new,
      shown (play answers w) = shown w ++ new /\
      consistentFrom (S k) (totalScore (quiz w)) (Some q) new.
Proof.
  induction answers as [|a rest IH]; intros k w q Haw Hq Hlen Hne;
    [congruence|].
  destruct (submitAnswer_awaiting a k w q Haw Hq)
    as (Htot & _ & _ & Hn & _ & _ & Hcase).
  rewrite play_cons. cbn [List.length] in Hlen.
  destruct Hcase as [(HSk & Haw' & _ & _) | (HSk & _ & Hsh & _)].
  - assert (Hne' : rest <> []) by (intros ->; cbn in Hlen; lia).
    destruct (submitAnswer_shows_next a k w q Haw Hq HSk) as (q' & Hq' & Hsh).
    destruct (IH (S k) (submitAnswer a w) q' Haw' Hq') as (new & H1 & H2).
    { rewrite Hn. lia. }
    { exact Hne'. }
    eexists. split; [rewrite H1, Hsh, <- app_assoc; reflexivity|].
    rewrite Htot in H2. cbn [app consistentFrom].
    repeat split. exact H2.
  - assert (rest = []) as -> by (destruct rest; [reflexivity | cbn in Hlen; lia]).
    cbn [play fold_left]. eexists. split; [exact Hsh|].
    cbn [consistentFrom]. repeat split.
Qed.

(** X18.  Over a full run on a non-empty batch, what the page has
    displayed since [start] reads consistently: the questions are
    numbered 0, 1, 2, ... without gap or repeat; each feedback is about
    the question that was last put on display, and tells what the
    validation of the selected answer against that question returned;
    and the score displayed with each question, and with the final
    result, is the number of right answers fed back before it. *)
Theorem display_is_consistent (B : list Question) (answers : list string)
    (w0 : World) :
  B <> [] ->
  List.length answers = List.length B ->
  exists new,
    shown (play answers (worldOf (start B w0))) = shown w0 ++ new /\
    consistentFrom 0 0 None new.
Proof.
  intros HB Hlen.
  destruct B as [|q0 rest]; [congruence|].
  destruct (start_nonempty q0 rest w0)
    as (w1 & E & Haw & HQ & Ht & Hsh & _).
  rewrite E. cbn [worldOf].
  destruct (play_consistent answers 0 w1 q0 Haw) as (new & H1 & H2).
  { rewrite HQ. reflexivity. }
  { rewrite HQ. exact Hlen. }
  { intros ->. discriminate Hlen. }
  exists (QuestionShown q0 0 0 :: new).
  split; [rewrite H1, Hsh, <- app_assoc; reflexivity|].
  rewrite Ht in H2. cbn [consistentFrom]. repeat split. exact H2.
Qed.

Lemma display_is_consistent_witness :
  (sampleBatch <> [] /\
   List.length sampleAnswers = List.length sampleBatch) /\
  exists new,
    shown (play sampleAnswers (worldOf (start sampleBatch samplePage))) =
      shown samplePage ++ new /\
    consistentFrom 0 0 None new.
Proof.
  assert (H1 : sampleBatch <> []) by discriminate.
  assert (H2 : List.length sampleAnswers = List.length sampleBatch) by reflexivity.
  split; [split; assumption|].
  exact (display_is_consistent sampleBatch sampleAnswers samplePage H1 H2).
Defined.

(** ** The percentage stays between 0 and 100 *)

Lemma exactPercent_range (s t : nat) :
  0 < t -> s <= t ->
  (0 <= exactPercent s t <= 100)%Z /\
  (s = t -> exactPercent s t = 100%Z) /\
  (s = 0 -> exactPercent s t = 0%Z).
Proof.
  intros Ht Hs. unfold exactPercent.
  assert (Hd : (0 < 2 * Z.of_nat t)%Z) by lia.
  split; [split|split].
  - apply Z.div_pos; lia.
  - assert (((200 * Z.of_nat s + Z.of_nat t) / (2 * Z.of_nat t) < 101)%Z)
      by (apply Z.div_lt_upper_bound; lia).
    lia.
  - intros ->. symmetry.
    apply (Z.div_unique _ _ 100%Z (Z.of_nat t)); lia.
  - intros ->. apply Z.div_small. lia.
Qed.

(** X19.  For every total from 1 to 39 and every score up to the total,
    the percentage stored by [recordQuizAttempt] is a whole number
    between 0 and 100; it is 100 for a perfect score and 0 for a score
    of 0. *)
Theorem recorded_percentage_range (date : string) (s t : nat) (p : Player) :
  0 < t -> t <= 39 -> s <= t ->
  exists pct : Z,
    allScores (recordQuizAttempt date s t p) =
      allScores p ++
      [ {| score := s; total := t; percentage := of_Z pct; timestamp := date |} ] /\
    (0 <= pct <= 100)%Z /\
    (s = t -> pct = 100%Z) /\
    (s = 0 -> pct = 0%Z).
Proof.
  intros Ht0 Ht Hs.
  exists (exactPercent s t). split.
  - unfold recordQuizAttempt. cbn [allScores].
    rewrite (percentOf_exact s t Ht0 Ht Hs). reflexivity.
  - apply exactPercent_range; assumption.
Qed.

Lemma recorded_percentage_range_witness :
  (0 < 10 /\ 10 <= 39 /\ 10 <= 10) /\
  exists pct : Z,
    allScores (recordQuizAttempt "3/11/2026" 10 10 Player_new) =
      allScores Player_new ++
      [ {| score := 10; total := 10; percentage := of_Z pct;
           timestamp := "3/11/2026" |} ] /\
    (0 <= pct <= 100)%Z /\
    (10 = 10 -> pct = 100%Z) /\
    (10 = 0 -> pct = 0%Z).
Proof.
  assert (H1 : 0 < 10) by lia.
  assert (H2 : 10 <= 39) by lia.
  assert (H3 : 10 <= 10) by lia.
  split; [exact (conj H1 (conj H2 H3))|].
  exact (recorded_percentage_range "3/11/2026" 10 10 Player_new H1 H2 H3).
Defined.
